(** * chat_server.js: the conversation store of the chat relay

    A shallow embedding of [src/chat_server.js] and the properties of its
    conversation store: conversation identity, bounded history, read
    flags, unread counts and the peer list.

    Modelling conventions.
    - A JS string is a [string] of 8-bit code units.  [toLowerCase] maps
      'A'..'Z' to 'a'..'z' and leaves every other unit alone, and the
      default [Array.prototype.sort] order is the code-unit order
      [String.leb]; both agree with JavaScript on ASCII strings, which is
      what wallet addresses are.
    - A value taken from a JSON body is a [jsval]; a missing property is
      [JUndefined].  JSON numbers are integers here.
    - [messagesData.conversations] is a plain object used as a map.  Its
      own properties are a [gmap]; a property read also sees
      [Object.prototype], which matters for the one conversation id that
      names an inherited property, the id of the wallets "_" and "proto__".
    - [messages.json] is the only state of the handlers ([chatUsers.json]
      is only created when the server starts, see [disk]).  [fs] holds
      its content ([None]
      while the file is missing or unreadable) and counts the calls of
      [fs.writeFile] on it, which are taken to succeed.  A file that can be
      read holds conversations of the shape the server writes: every
      conversation has its [participants] and [messages], every message
      its seven fields.  Every handler re-reads the file, so no object is
      shared between two requests.
    - [Date.now()], [new Date().toISOString()] and [Math.random()] are
      inputs of the handler that calls them ([clock]); so is the answer of
      the tournament backend ([fetched]). *)

From Stdlib Require Import ZArith Ascii String.
From stdpp Require Import gmap strings list fin_maps.

Local Open Scope string_scope.
Local Open Scope list_scope.
Local Open Scope nat_scope.

(** ** Strings *)

Definition is_upper (c : ascii) : bool :=
  let n := Ascii.nat_of_ascii c in (65 <=? n)%nat && (n <=? 90)%nat.

Definition lower_ascii (c : ascii) : ascii :=
  if is_upper c then Ascii.ascii_of_nat (Ascii.nat_of_ascii c + 32) else c.

(** [String.prototype.toLowerCase] *)
Fixpoint toLowerCase (s : string) : string :=
  match s with
  | EmptyString => EmptyString
  | String c s' => String (lower_ascii c) (toLowerCase s')
  end.

(** [Array.prototype.sort] without a comparator, on an array of strings:
    a stable sort by code units. *)
Fixpoint sort_insert (x : string) (l : list string) : list string :=
  match l with
  | [] => [x]
  | y :: l' => if String.leb x y then x :: l else y :: sort_insert x l'
  end.

Definition sort (l : list string) : list string := foldr sort_insert [] l.

(** [a[i]] on an array of strings known to be long enough *)
Definition at_index (l : list string) (i : nat) : string := default "" (l !! i).

(** ** JSON values *)

#[local] Unset Elimination Schemes.
Inductive jsval : Type :=
  | JUndefined
  | JNull
  | JBool (b : bool)
  | JNum (n : Z)
  | JStr (s : string)
  | JArr (l : list jsval)
  | JObj (l : list (string * jsval)).
#[local] Set Elimination Schemes.

(** [!v] is [negb (truthy v)] *)
Definition truthy (v : jsval) : bool :=
  match v with
  | JUndefined | JNull => false
  | JBool b => b
  | JNum n => negb (n =? 0)%Z
  | JStr s => negb (String.eqb s "")
  | JArr _ | JObj _ => true
  end.

(** [a || b] *)
Definition js_or (a b : jsval) : jsval := if truthy a then a else b.

(** ** The persisted data *)

Record message : Type := Message {
  msg_id : string;
  msg_from : string;
  msg_to : string;
  msg_message : jsval;
  msg_messageType : jsval;
  msg_timestamp : string;
  msg_read : bool
}.

Record conversation : Type := Conversation {
  participants : list string;
  messages : list message;
  createdAt : string;
  lastMessageAt : option string
}.

Record messagesData : Type := MessagesData {
  conversations : gmap string conversation
}.

(** [const defaultData = { conversations: {} }] *)
Definition defaultData : messagesData := MessagesData ∅.

(** ** The file [messages.json] *)

Record fs : Type := Fs {
  messages_file : option messagesData;
  write_count : nat
}.

(** Handlers are state transformers over [fs]. *)
Definition io (A : Type) : Type := fs → A * fs.

#[export] Instance io_ret : MRet io := λ A a s, (a, s).
#[export] Instance io_bind : MBind io :=
  λ A B k m s, let (a, s') := m s in k a s'.

(** [writeMessages(data)] *)
Definition writeMessages (data : messagesData) : io unit :=
  λ s, (tt, Fs (Some data) (S (write_count s))).

(** [readMessages()]: the file's content, or, when it cannot be read, the
    default data after writing it. *)
Definition readMessages : io messagesData :=
  λ s, match messages_file s with
       | Some data => (data, s)
       | None => (writeMessages defaultData ;; mret defaultData) s
       end.

(** What a request finds in the file. *)
Definition stored (s : fs) : messagesData := fst (readMessages s).

(** ** Conversation identity *)

Definition getConversationId (wallet1 wallet2 : string) : string :=
  let sorted := sort [toLowerCase wallet1; toLowerCase wallet2] in
  at_index sorted 0 +:+ "_" +:+ at_index sorted 1.

(** ** Reading a property of [messagesData.conversations] *)

(** The properties every plain object inherits from [Object.prototype]. *)
Definition inherited_properties : list string :=
  ["__proto__"; "constructor"; "hasOwnProperty"; "isPrototypeOf";
   "propertyIsEnumerable"; "toLocaleString"; "toString"; "valueOf";
   "__defineGetter__"; "__defineSetter__"; "__lookupGetter__";
   "__lookupSetter__"].

Inductive property : Type :=
  | Own (c : conversation)   (* an own property: a stored conversation *)
  | Inherited                (* a member of [Object.prototype]: truthy,
                                without [messages] or [participants] *)
  | Missing.                 (* [undefined] *)

(** [messagesData.conversations[id]] *)
Definition get_conversation (data : messagesData) (id : string) : property :=
  match conversations data !! id with
  | Some c => Own c
  | None => if bool_decide (id ∈ inherited_properties) then Inherited else Missing
  end.

(** [messagesData.conversations[id] = c], and the in-place updates of the
    conversation object stored under [id]. *)
Definition set_conversation (data : messagesData) (id : string)
    (c : conversation) : messagesData :=
  MessagesData (<[id := c]> (conversations data)).

(** ** Responses *)

Inductive response (A : Type) : Type :=
  | Json (body : A)                       (* [res.json(body)] *)
  | Status (code : nat) (error : string). (* [res.status(code).json({ error })] *)
Arguments Json {A} body.
Arguments Status {A} code error.

(** ** GET /chat/conversation/:wallet1/:wallet2 *)

Record conversation_body : Type := ConversationBody {
  res_conversationId : string;
  res_messages : list message;
  res_participants : option (list string)   (* [None]: [undefined] *)
}.

(** The body of the [forEach] that marks messages as read. *)
Definition mark_read (wallet1 : string) (msg : message) : message :=
  if bool_decide (toLowerCase (msg_to msg) = toLowerCase wallet1)
  then Message (msg_id msg) (msg_from msg) (msg_to msg) (msg_message msg)
         (msg_messageType msg) (msg_timestamp msg) true
  else msg.

Definition getConversation (wallet1 wallet2 : string)
    : io (response conversation_body) :=
  let conversationId := getConversationId wallet1 wallet2 in
  messagesData ← readMessages;
  match get_conversation messagesData conversationId with
  | Missing =>
      mret (Json (ConversationBody conversationId []
                    (Some [toLowerCase wallet1; toLowerCase wallet2])))
  | Inherited =>
      (* [conversation.messages] is undefined: nothing is marked or
         written, and [participants] is undefined too *)
      mret (Json (ConversationBody conversationId [] None))
  | Own conversation =>
      (* [conversation.messages] is an array, hence truthy *)
      let conversation :=
        Conversation (participants conversation)
          (mark_read wallet1 <$> messages conversation)
          (createdAt conversation) (lastMessageAt conversation) in
      writeMessages (set_conversation messagesData conversationId conversation);;
      mret (Json (ConversationBody conversationId (messages conversation)
                    (Some (participants conversation))))
  end.

(** ** POST /chat/send *)

Record send_request : Type := SendRequest {
  req_from : jsval;
  req_to : jsval;
  req_message : jsval;
  req_messageType : jsval
}.

(** The values the handler draws from the clock and the random generator,
    in the order it draws them. *)
Record clock : Type := Clock {
  now_createdAt : string;    (* [new Date().toISOString()] for [createdAt] *)
  now_ms : string;           (* [Date.now()] in decimal *)
  random_suffix : string;    (* [Math.random().toString(36).substr(2, 9)] *)
  now_timestamp : string;    (* [new Date().toISOString()] for [timestamp] *)
  now_lastMessageAt : string (* [new Date().toISOString()] for [lastMessageAt] *)
}.

Record send_body : Type := SendBody {
  res_message : string;
  res_messageData : message
}.

(** [a.slice(-n)] *)
Definition slice_last {A} (n : nat) (a : list A) : list A :=
  drop (length a - n) a.

(** The message built from a request whose [from] and [to] are strings. *)
Definition newMessage (clk : clock) (from to : string)
    (content messageType : jsval) : message :=
  Message ("msg_" +:+ now_ms clk +:+ "_" +:+ random_suffix clk)
    (toLowerCase from) (toLowerCase to) content
    (js_or messageType (JStr "text")) (now_timestamp clk) false.

(** [push] the message and keep only the last 3. *)
Definition push_keep3 (msgs : list message) (msg : message) : list message :=
  let msgs := msgs ++ [msg] in
  if (3 <? length msgs)%nat then slice_last 3 msgs else msgs.

Definition sendMessage (clk : clock) (req : send_request)
    : io (response send_body) :=
  if negb (truthy (req_from req)) || negb (truthy (req_to req))
     || negb (truthy (req_message req))
  then mret (Status 400 "From, to, and message are required")
  else
    match req_from req, req_to req with
    | JStr from, JStr to =>
        let conversationId := getConversationId from to in
        messagesData ← readMessages;
        let created :=
          Conversation [toLowerCase from; toLowerCase to] []
            (now_createdAt clk) None in
        let msg := newMessage clk from to (req_message req) (req_messageType req) in
        let append conversation :=
          let conversation :=
            Conversation (participants conversation)
              (push_keep3 (messages conversation) msg)
              (createdAt conversation) (Some (now_lastMessageAt clk)) in
          writeMessages (set_conversation messagesData conversationId conversation);;
          mret (Json (SendBody "Message sent successfully" msg)) in
        match get_conversation messagesData conversationId with
        | Missing => append created
        | Own conversation => append conversation
        | Inherited =>
            (* no conversation is created, and [.messages.push] throws *)
            mret (Status 500 "Internal server error")
        end
    | _, _ =>
        (* [toLowerCase] is not a function of a truthy non-string *)
        mret (Status 500 "Internal server error")
    end.

(** ** GET /chat/unread/:walletAddress *)

Definition unread_for (userWallet : string) (msgs : list message) : nat :=
  length (filter (λ msg, msg_to msg = userWallet ∧ msg_read msg = false) msgs).

Definition getUnreadCount (walletAddress : string) : io (response nat) :=
  let userWallet := toLowerCase walletAddress in
  messagesData ← readMessages;
  let totalUnread :=
    map_fold (λ _ conversation totalUnread,
        if bool_decide (userWallet ∈ participants conversation)
        then totalUnread + unread_for userWallet (messages conversation)
        else totalUnread)
      0 (conversations messagesData) in
  mret (Json totalUnread).

(** ** GET /chat/available-users/:walletAddress *)

(** The part of the roster the handler reads.  [tournaments] and
    [tournament_participants] are [None] when the property is missing;
    [Object.values] of the games and of a game's tournaments are lists in
    the order JavaScript enumerates them. *)
Record participant : Type := Participant {
  walletAddress : string;
  platformUsername : jsval;
  gamertags : jsval
}.

Record tournament : Type := Tournament {
  tournament_participants : option (list participant);
  status : jsval
}.

Record game : Type := Game {
  tournaments : option (list tournament)
}.

(** What [fetch(...)] and [gamesResponse.json()] give. *)
Inductive fetched : Type :=
  | FetchThrows                       (* the request or the parse throws *)
  | FetchNotOk                        (* [!gamesResponse.ok] *)
  | FetchOk (gamesData : list game).  (* [Object.values(gamesData)] *)

(** A [Map] with string keys, in insertion order. *)
Definition Map_has {V} (m : list (string * V)) (k : string) : bool :=
  bool_decide (k ∈ m.*1).

Definition Map_set {V} (m : list (string * V)) (k : string) (v : V)
    : list (string * V) :=
  if Map_has m k
  then (λ kv, if bool_decide (kv.1 = k) then (k, v) else kv) <$> m
  else m ++ [(k, v)].

Definition Map_values {V} (m : list (string * V)) : list V := m.*2.

(** The value stored in [availableUsers]. *)
Record user : Type := User {
  user_walletAddress : string;
  user_platformUsername : jsval;
  user_gamertags : jsval
}.

(** [v !== 'finished'] *)
Definition not_finished (v : jsval) : bool :=
  match v with
  | JStr s => negb (String.eqb s "finished")
  | _ => true
  end.

(** The body of [tournament.participants.forEach] *)
Definition add_participant (userWallet : string)
    (availableUsers : list (string * user)) (p : participant)
    : list (string * user) :=
  let pWallet := toLowerCase (walletAddress p) in
  if bool_decide (pWallet ≠ userWallet) && negb (Map_has availableUsers pWallet)
  then Map_set availableUsers pWallet
         (User (walletAddress p) (platformUsername p) (gamertags p))
  else availableUsers.

(** [tournament.participants?.some(p => ...)] *)
Definition isParticipant (userWallet : string) (t : tournament) : bool :=
  match tournament_participants t with
  | Some ps =>
      existsb (λ p, bool_decide (toLowerCase (walletAddress p) = userWallet)) ps
  | None => false
  end.

(** The body of [Object.values(game.tournaments).forEach] *)
Definition add_tournament (userWallet : string)
    (availableUsers : list (string * user)) (t : tournament)
    : list (string * user) :=
  if isParticipant userWallet t && not_finished (status t)
  then foldl (add_participant userWallet) availableUsers
         (default [] (tournament_participants t))
  else availableUsers.

(** The body of [Object.values(gamesData).forEach] *)
Definition add_game (userWallet : string)
    (availableUsers : list (string * user)) (g : game)
    : list (string * user) :=
  match tournaments g with
  | Some ts => foldl (add_tournament userWallet) availableUsers ts
  | None => availableUsers
  end.

Definition collect_users (userWallet : string) (gamesData : list game)
    : list (string * user) :=
  foldl (add_game userWallet) [] gamesData.

(** A JS object: its own properties in insertion order. *)
Definition object : Type := list (string * jsval).

(** The unread count of one conversation, as the peer list computes it. *)
Definition peer_unread (userWallet : string) (messagesData : messagesData)
    (u : user) : nat :=
  let convId := getConversationId userWallet (user_walletAddress u) in
  match get_conversation messagesData convId with
  | Own conversation =>
      length (filter (λ msg, toLowerCase (msg_to msg) = userWallet
                             ∧ msg_read msg = false) (messages conversation))
  | Inherited | Missing => 0
  end.

(** [{ ...user, unreadCount }] *)
Definition with_unreadCount (u : user) (unreadCount : nat) : object :=
  [("walletAddress", JStr (user_walletAddress u));
   ("platformUsername", user_platformUsername u);
   ("gamertags", user_gamertags u);
   ("unreadCount", JNum (Z.of_nat unreadCount))].

Record users_body : Type := UsersBody {
  res_users : list object;
  res_count : nat
}.

Definition listAvailablePeers (walletAddress : string) (gamesResponse : fetched)
    : io (response users_body) :=
  let userWallet := toLowerCase walletAddress in
  match gamesResponse with
  | FetchThrows => mret (Status 500 "Internal server error")
  | FetchNotOk => mret (Status 500 "Failed to fetch tournament data")
  | FetchOk gamesData =>
      let availableUsers := collect_users userWallet gamesData in
      messagesData ← readMessages;
      let usersWithUnread :=
        (λ u, with_unreadCount u (peer_unread userWallet messagesData u))
          <$> Map_values availableUsers in
      mret (Json (UsersBody usersWithUnread (length usersWithUnread)))
  end.

(** ** Sequences of requests *)

Inductive request : Type :=
  | GetAvailableUsers (walletAddress : string) (gamesResponse : fetched)
  | GetConversation (wallet1 wallet2 : string)
  | PostSend (clk : clock) (req : send_request)
  | GetUnread (walletAddress : string).

(** The state a request leaves behind. *)
Definition handle (s : fs) (r : request) : fs :=
  match r with
  | GetAvailableUsers w g => (listAvailablePeers w g s).2
  | GetConversation w1 w2 => (getConversation w1 w2 s).2
  | PostSend clk req => (sendMessage clk req s).2
  | GetUnread w => (getUnreadCount w s).2
  end.

Definition run (rs : list request) (s : fs) : fs := foldl handle s rs.

(** The state before the first request: no file yet. *)
Definition no_file : fs := Fs None 0.

(** ** Vocabulary of the properties *)

(** The messages stored under a conversation id; none when there is no
    such conversation. *)
Definition messages_of (d : messagesData) (id : string) : list message :=
  from_option messages [] (conversations d !! id).

(** The participants stored under a conversation id. *)
Definition participants_of (d : messagesData) (id : string) : list string :=
  from_option participants [] (conversations d !! id).

(** [m'] is [m] at a later time: every field but [read] is the same, and
    [read] has not gone back to [false]. *)
Definition msg_evolves (m m' : message) : Prop :=
  msg_id m' = msg_id m ∧ msg_from m' = msg_from m ∧ msg_to m' = msg_to m
  ∧ msg_message m' = msg_message m ∧ msg_messageType m' = msg_messageType m
  ∧ msg_timestamp m' = msg_timestamp m
  ∧ (msg_read m = true → msg_read m' = true).

(** The message a request appends to conversation [id]: the one a
    successful send reports in [messageData], when it belongs to [id]. *)
Definition appended (s : fs) (r : request) (id : string) : list message :=
  match r with
  | PostSend clk req =>
      match (sendMessage clk req s).1 with
      | Json body =>
          let m := res_messageData body in
          if bool_decide (getConversationId (msg_from m) (msg_to m) = id)
          then [m] else []
      | Status _ _ => []
      end
  | _ => []
  end.

(** The messages a sequence of requests appends to conversation [id], in
    the order they are appended. *)
Fixpoint appended_all (s : fs) (rs : list request) (id : string) : list message :=
  match rs with
  | [] => []
  | r :: rs => appended s r id ++ appended_all (handle s r) rs id
  end.

(** The unread total the way the specification words it: the sum, over the
    conversations that list the wallet as a participant, of the unread
    messages addressed to it. *)
Definition unread_sum (userWallet : string) (cs : list conversation) : nat :=
  sum_list
    ((λ c, unread_for userWallet (messages c))
       <$> filter (λ c, userWallet ∈ participants c) cs).

Definition unread_total (userWallet : string) (d : messagesData) : nat :=
  unread_sum userWallet (map_to_list (conversations d)).*2.

(** A string in canonical form. *)
Definition lowercase (w : string) : Prop := toLowerCase w = w.

(** Every wallet in the data is stored in lowercase. *)
Definition canonical (d : messagesData) : Prop :=
  ∀ id c, conversations d !! id = Some c →
    Forall lowercase (participants c)
    ∧ Forall (λ m, lowercase (msg_from m) ∧ lowercase (msg_to m)) (messages c).

(** [o[k]] for an own property of [o]; [undefined] when there is none. *)
Definition get_property (o : object) (k : string) : jsval :=
  match list_find (λ kv, kv.1 = k) o with
  | Some (_, kv) => kv.2
  | None => JUndefined
  end.

(** The unread messages of conversation [id] addressed to [userWallet],
    the address compared in lowercase. *)
Definition unread_in (d : messagesData) (id userWallet : string) : nat :=
  length (filter (λ msg, toLowerCase (msg_to msg) = userWallet
                         ∧ msg_read msg = false) (messages_of d id)).

(** The entry the peer list makes of a roster participant. *)
Definition user_of (p : participant) : user :=
  User (walletAddress p) (platformUsername p) (gamertags p).

(** [p] takes part, with the wallet [userWallet] (compared in lowercase),
    in a tournament of the roster whose status is not ['finished']. *)
Definition co_participant (userWallet : string) (gamesData : list game)
    (p : participant) : Prop :=
  ∃ g ts t ps,
    g ∈ gamesData ∧ tournaments g = Some ts ∧ t ∈ ts
    ∧ tournament_participants t = Some ps
    ∧ status t ≠ JStr "finished"
    ∧ (∃ q, q ∈ ps ∧ toLowerCase (walletAddress q) = userWallet)
    ∧ p ∈ ps.

(** The participants of those tournaments in the order of the roster: game
    by game, tournament by tournament. *)
Definition listed (userWallet : string) (gamesData : list game)
    : list participant :=
  g ← gamesData;
  t ← default [] (tournaments g);
  if isParticipant userWallet t && not_finished (status t)
  then default [] (tournament_participants t) else [].

(** [p] is the first entry of [l] with the lowercased wallet [k]. *)
Definition first_with_wallet (k : string) (p : participant)
    (l : list participant) : Prop :=
  ∃ l1 l2, l = l1 ++ p :: l2 ∧ toLowerCase (walletAddress p) = k
           ∧ ∀ q, q ∈ l1 → toLowerCase (walletAddress q) ≠ k.

(** The roster of the examples: one open tournament with three entries,
    two of them the same wallet in different case, and a finished one. *)
Definition sample_roster : list game :=
  [Game (Some
     [Tournament
        (Some [Participant "0xAA" (JStr "ann") JNull;
               Participant "0xBB" (JStr "bob") JNull;
               Participant "0xbb" (JStr "bobby") JNull]) (JStr "running");
      Tournament
        (Some [Participant "0xAA" (JStr "ann") JNull;
               Participant "0xCC" (JStr "cy") JNull]) (JStr "finished")])].

(** Sample inputs. *)
Definition clock_at (ms : string) : clock :=
  Clock "2026-01-01T00:00:00.000Z" ms "k3j9x0q1z"
    "2026-01-01T00:00:00.000Z" "2026-01-01T00:00:00.000Z".

Definition text (from to body : string) : request :=
  PostSend (clock_at body)
    (SendRequest (JStr from) (JStr to) (JStr body) JUndefined).

(** ** The second file and the start of the server *)

(** [chatUsers.json]: [{ users: {} }], an object no handler reads. *)
Record chatUsers : Type := ChatUsers {
  users : gmap string jsval
}.

(** Both files: [messages.json] as before, and the content of
    [chatUsers.json] with the number of writes to it. *)
Record disk : Type := Disk {
  messages_json : fs;
  chatUsers_file : option chatUsers;
  chatUsers_writes : nat
}.

(** [writeChatUsers(data)] *)
Definition writeChatUsers (data : chatUsers) (d : disk) : unit * disk :=
  (tt, Disk (messages_json d) (Some data) (S (chatUsers_writes d))).

(** [readChatUsers()] *)
Definition readChatUsers (d : disk) : chatUsers * disk :=
  match chatUsers_file d with
  | Some data => (data, d)
  | None =>
      let defaultData := ChatUsers ∅ in
      (defaultData, (writeChatUsers defaultData d).2)
  end.

(** The callback of [app.listen]: [await readMessages(); await
    readChatUsers();] *)
Definition initialize (d : disk) : disk :=
  let d := Disk (readMessages (messages_json d)).2
             (chatUsers_file d) (chatUsers_writes d) in
  (readChatUsers d).2.

(** ** More vocabulary *)

(** The conversation a request reads and may change. *)
Definition target (r : request) : option string :=
  match r with
  | GetConversation w1 w2 => Some (getConversationId w1 w2)
  | PostSend _ req =>
      match req_from req, req_to req with
      | JStr from, JStr to => Some (getConversationId from to)
      | _, _ => None
      end
  | GetAvailableUsers _ _ | GetUnread _ => None
  end.

Definition is_send (r : request) : bool :=
  match r with PostSend _ _ => true | _ => false end.

(** The string holds the separator of conversation ids. *)
Fixpoint has_underscore (w : string) : bool :=
  match w with
  | EmptyString => false
  | String c w' => Ascii.eqb c "_" || has_underscore w'
  end.

(** The wallets a request names as sender and recipient. *)
Definition sender_and_recipient (r : request) : list string :=
  match r with
  | PostSend _ req =>
      match req_from req, req_to req with
      | JStr from, JStr to => [from; to]
      | _, _ => []
      end
  | _ => []
  end.

(** The shape of what the server stores: a conversation is filed under the
    id of its two participants, which is no inherited property name; it
    holds one to three messages, each filed under the id of its own
    sender and recipient; and it records when the last one came. *)
Definition well_filed (d : messagesData) : Prop :=
  ∀ id c, conversations d !! id = Some c →
    (∃ p1 p2, participants c = [p1; p2] ∧ id = getConversationId p1 p2)
    ∧ (id ∉ inherited_properties)
    ∧ 1 ≤ length (messages c) ≤ 3
    ∧ Forall (λ m, getConversationId (msg_from m) (msg_to m) = id) (messages c)
    ∧ is_Some (lastMessageAt c).

(** The entries of a roster list whose lowercased wallet is not in [seen]
    and has not occurred before, in the order of the list. *)
Fixpoint first_occurrences (seen : list string) (l : list participant)
    : list participant :=
  match l with
  | [] => []
  | p :: l =>
      let k := toLowerCase (walletAddress p) in
      if decide (k ∈ seen) then first_occurrences seen l
      else p :: first_occurrences (k :: seen) l
  end.

(** No wallet among the participants holds the separator. *)
Definition plain_participants (d : messagesData) : Prop :=
  ∀ id c, conversations d !! id = Some c →
    Forall (λ p, has_underscore p = false) (participants c).

(** No sender or recipient named by the request holds the separator. *)
Definition plain_request (r : request) : Prop :=
  Forall (λ w, has_underscore w = false) (sender_and_recipient r).

(** Every message of a conversation goes from one of its two participants
    to the other (or to itself, when the two are the same wallet). *)
Definition between_participants (d : messagesData) : Prop :=
  ∀ id c, conversations d !! id = Some c →
    Forall (λ m, msg_from m ∈ participants c ∧ msg_to m ∈ participants c
                 ∧ ∀ p, p ∈ participants c → p = msg_from m ∨ p = msg_to m)
      (messages c).

(** ** What [res.json] sends *)

Definition is_undefined (v : jsval) : bool :=
  match v with JUndefined => true | _ => false end.

(** [res.json(body)] sends [JSON.stringify(body)], which leaves out the
    properties of an object whose value is [undefined].  This is the
    element of [users] as the client receives it. *)
Definition serialized (o : list (string * jsval)) : object :=
  filter (λ kv, is_undefined kv.2 = false) o.

(** The properties of a peer the client receives. *)
Definition sent_fields (u : user) : list string :=
  "walletAddress"
  :: (if is_undefined (user_platformUsername u) then [] else ["platformUsername"])
  ++ (if is_undefined (user_gamertags u) then [] else ["gamertags"])
  ++ ["unreadCount"].

(** * Properties *)

(** ** Properties of conversation identity *)

Lemma lower_ascii_idem c : lower_ascii (lower_ascii c) = lower_ascii c.
Proof. by destruct c as [[] [] [] [] [] [] [] []]. Qed.

Lemma toLowerCase_idem s : toLowerCase (toLowerCase s) = toLowerCase s.
Proof. induction s as [|c s IH]; simpl; [done|]. by rewrite lower_ascii_idem, IH. Qed.

Lemma sort_pair x y :
  sort [x; y] = if String.leb x y then [x; y] else [y; x].
Proof. reflexivity. Qed.

Lemma sort_pair_comm x y : sort [x; y] = sort [y; x].
Proof.
  rewrite !sort_pair.
  destruct (String.leb x y) eqn:Hxy, (String.leb y x) eqn:Hyx; try done.
  - by rewrite (String.leb_antisym _ _ Hxy Hyx).
  - destruct (String.leb_total x y); congruence.
Qed.

Lemma getConversationId_comm a b : getConversationId a b = getConversationId b a.
Proof. unfold getConversationId. by rewrite sort_pair_comm. Qed.

Lemma getConversationId_lower a b :
  getConversationId (toLowerCase a) (toLowerCase b) = getConversationId a b.
Proof. unfold getConversationId. by rewrite !toLowerCase_idem. Qed.

(** C1: the conversation id does not depend on the order of the two
    wallets, it is the id of the lowercased wallets, and two pairs of
    wallets that differ only in the case of their characters have the same
    id. *)
Theorem C1_conversation_id_canonical (a b : string) :
  getConversationId a b = getConversationId b a
  ∧ getConversationId a b = getConversationId (toLowerCase a) (toLowerCase b)
  ∧ ∀ a' b', toLowerCase a' = toLowerCase a → toLowerCase b' = toLowerCase b →
      getConversationId a' b' = getConversationId a b.
Proof.
  split; [apply getConversationId_comm|].
  split; [by rewrite getConversationId_lower|].
  intros a' b' Ha Hb. unfold getConversationId. by rewrite Ha, Hb.
Qed.

Lemma C1_conversation_id_canonical_witness :
  getConversationId "0xAB" "0xcd" = getConversationId "0xab" "0xCD".
Proof.
  destruct (C1_conversation_id_canonical "0xab" "0xCD") as (_ & _ & H).
  apply H; reflexivity.
Defined.

(** ** The file and the handlers' effect on it *)

Lemma readMessages_eq s :
  readMessages s =
    (stored s, Fs (Some (stored s))
                 (match messages_file s with
                  | Some _ => write_count s
                  | None => S (write_count s)
                  end)).
Proof. by destruct s as [[d|] n]. Qed.

Lemma stored_Some d n : stored (Fs (Some d) n) = d.
Proof. done. Qed.

Lemma get_conversation_own d id c :
  get_conversation d id = Own c ↔ conversations d !! id = Some c.
Proof.
  unfold get_conversation. destruct (conversations d !! id).
  - split; by intros [= ->].
  - case_bool_decide; split; done.
Qed.

Lemma mark_read_idem w msg : mark_read w (mark_read w msg) = mark_read w msg.
Proof.
  unfold mark_read.
  destruct (bool_decide (toLowerCase (msg_to msg) = toLowerCase w)) eqn:H;
    simpl; by rewrite H.
Qed.

(** ** Validation of a send request *)

(** C6: a send request whose [from], [to] or [message] is falsy (missing,
    [null], the empty string, ...) is answered 400, and the file is neither
    read nor written: the state is exactly the one before. *)
Theorem C6_send_rejects_empty_fields (clk : clock) (req : send_request) (s : fs) :
  truthy (req_from req) = false ∨ truthy (req_to req) = false
    ∨ truthy (req_message req) = false →
  sendMessage clk req s = (Status 400 "From, to, and message are required", s).
Proof.
  intros H. unfold sendMessage.
  destruct (truthy (req_from req)), (truthy (req_to req)),
    (truthy (req_message req)); simpl; try done.
  by destruct H as [?|[?|?]].
Qed.

Lemma C6_send_rejects_empty_fields_witness :
  sendMessage (clock_at "1767225600000")
    (SendRequest (JStr "") (JStr "B") (JStr "x") JUndefined) no_file
  = (Status 400 "From, to, and message are required", no_file).
Proof. apply C6_send_rejects_empty_fields. left. reflexivity. Defined.

(** ** Fetching a conversation *)

Lemma getConversation_own w1 w2 s c :
  conversations (stored s) !! getConversationId w1 w2 = Some c →
  getConversation w1 w2 s =
    let id := getConversationId w1 w2 in
    let c' := Conversation (participants c) (mark_read w1 <$> messages c)
                (createdAt c) (lastMessageAt c) in
    (Json (ConversationBody id (messages c') (Some (participants c'))),
     Fs (Some (set_conversation (stored s) id c'))
        (S (readMessages s).2.(write_count))).
Proof.
  intros Hc. apply get_conversation_own in Hc.
  unfold getConversation, mbind, io_bind. rewrite readMessages_eq, Hc.
  reflexivity.
Qed.

Lemma getConversation_not_own w1 w2 s :
  conversations (stored s) !! getConversationId w1 w2 = None →
  getConversation w1 w2 s =
    let id := getConversationId w1 w2 in
    (Json (ConversationBody id []
             (if bool_decide (id ∈ inherited_properties) then None
              else Some [toLowerCase w1; toLowerCase w2])),
     (readMessages s).2).
Proof.
  intros Hc. unfold getConversation, mbind, io_bind. rewrite readMessages_eq.
  unfold get_conversation. rewrite Hc. simpl. by case_bool_decide.
Qed.

(** When the id names no own and no inherited property, the answer is the
    empty thread of the two lowercased wallets, the conversations are the
    ones before, and a file that exists is not written. *)
Lemma getConversation_missing w1 w2 s :
  get_conversation (stored s) (getConversationId w1 w2) = Missing →
  (getConversation w1 w2 s).1 =
    Json (ConversationBody (getConversationId w1 w2) []
            (Some [toLowerCase w1; toLowerCase w2]))
  ∧ stored (getConversation w1 w2 s).2 = stored s
  ∧ (is_Some (messages_file s) → (getConversation w1 w2 s).2 = s).
Proof.
  intros H. unfold get_conversation in H.
  destruct (conversations (stored s) !! getConversationId w1 w2) eqn:Hc; [done|].
  rewrite getConversation_not_own by done. simpl.
  case_bool_decide; [done|]. rewrite readMessages_eq. simpl.
  split; [done|]. split; [done|].
  destruct s as [[d|] n]; simpl; [done|]. by intros [? [=]].
Qed.

(** C7: the request GET /chat/conversation/_/proto__ has the conversation
    id ["__proto__"].  On a store without conversations the read
    [conversations["__proto__"]] finds [Object.prototype], so the handler
    takes the branch of an existing conversation: it answers an empty
    message list whose [participants] is undefined, rather than the two
    lowercased wallets. *)
Theorem C7_inherited_id_has_no_participants :
  getConversationId "_" "proto__" = "__proto__"
  ∧ conversations defaultData !! "__proto__" = None
  ∧ getConversation "_" "proto__" (Fs (Some defaultData) 1)
    = (Json (ConversationBody "__proto__" [] None), Fs (Some defaultData) 1).
Proof. split; [reflexivity|]. split; reflexivity. Qed.

Lemma mark_read_all_idem w (msgs : list message) :
  mark_read w <$> (mark_read w <$> msgs) = mark_read w <$> msgs.
Proof.
  induction msgs as [|m msgs IH]; [done|].
  by rewrite !fmap_cons, mark_read_idem, IH.
Qed.

Lemma set_conversation_twice d id c c' :
  set_conversation (set_conversation d id c) id c' = set_conversation d id c'.
Proof. unfold set_conversation. simpl. by rewrite insert_insert_eq. Qed.

Lemma getConversation_twice w1 w2 s :
  let '(r1, s1) := getConversation w1 w2 s in
  let '(r2, s2) := getConversation w1 w2 s1 in
  r2 = r1 ∧ messages_file s2 = messages_file s1.
Proof.
  destruct (conversations (stored s) !! getConversationId w1 w2) as [c|] eqn:Hc.
  - rewrite (getConversation_own _ _ _ c) by done. cbv beta iota zeta.
    erewrite getConversation_own
      by (rewrite stored_Some; apply lookup_insert_eq).
    cbv beta iota zeta. rewrite stored_Some, set_conversation_twice. simpl.
    by rewrite mark_read_all_idem.
  - rewrite getConversation_not_own by done. cbv beta iota zeta.
    rewrite readMessages_eq. simpl.
    rewrite getConversation_not_own by (by rewrite stored_Some).
    done.
Qed.

(** C5 (as the code has it): the handler is idempotent on what is stored:
    a second call answers exactly what the first did and leaves the
    content of the file as the first call left it.  It writes the file on
    every call that finds the conversation, whether or not a read flag
    changed, so the second call writes it once more; and it does not write
    an existing file when it finds no conversation. *)
Theorem C5_getConversation_writes_and_repeats (w1 w2 : string) (s : fs) :
  let id := getConversationId w1 w2 in
  let '(r1, s1) := getConversation w1 w2 s in
  let '(r2, s2) := getConversation w1 w2 s1 in
  r2 = r1
  ∧ messages_file s2 = messages_file s1
  ∧ ∀ d, messages_file s = Some d →
      match conversations d !! id with
      | Some _ => write_count s1 = S (write_count s)
                  ∧ write_count s2 = S (write_count s1)
      | None => s1 = s ∧ s2 = s
      end.
Proof.
  intros id.
  pose proof (getConversation_twice w1 w2 s) as Htwice.
  destruct (getConversation w1 w2 s) as [r1 s1] eqn:H1.
  destruct (getConversation w1 w2 s1) as [r2 s2] eqn:H2.
  destruct Htwice as [Hr Hf]. split; [done|]. split; [done|].
  intros d Hd. destruct s as [f n]. simpl in Hd. subst f.
  destruct (conversations d !! id) as [c|] eqn:Hc; subst id.
  - rewrite (getConversation_own _ _ _ c) in H1 by done.
    cbv beta iota zeta in H1. injection H1 as <- <-.
    erewrite getConversation_own in H2
      by (rewrite stored_Some; apply lookup_insert_eq).
    cbv beta iota zeta in H2. injection H2 as <- <-. done.
  - rewrite getConversation_not_own in H1 by done.
    cbv beta iota zeta in H1. simpl in H1. injection H1 as <- <-.
    rewrite getConversation_not_own in H2 by done.
    cbv beta iota zeta in H2. simpl in H2. injection H2 as <- <-. done.
Qed.

Lemma C5_getConversation_writes_and_repeats_witness :
  let s := run [text "0xA" "0xB" "hi"; GetConversation "0xb" "0xa"] no_file in
  let '(r1, s1) := getConversation "0xB" "0xA" s in
  let '(r2, s2) := getConversation "0xB" "0xA" s1 in
  r2 = r1 ∧ messages_file s2 = messages_file s1
  ∧ write_count s1 = S (write_count s) ∧ write_count s2 = S (write_count s1).
Proof.
  pose proof (C5_getConversation_writes_and_repeats "0xB" "0xA"
    (run [text "0xA" "0xB" "hi"; GetConversation "0xb" "0xa"] no_file)) as H.
  cbv zeta in H |- *.
  destruct (getConversation "0xB" "0xA" _) as [r1 s1].
  destruct (getConversation "0xB" "0xA" s1) as [r2 s2].
  destruct H as (H1 & H2 & H3). split; [exact H1|]. split; [exact H2|].
  exact (H3 _ eq_refl).
Defined.

(** C5, the part that fails: after A sent one message to B, A fetches the
    conversation.  No message is addressed to A, so no read flag changes
    and the file's content stays what it was, and yet the file is written. *)
Lemma C5_write_without_change :
  let s := run [text "0xA" "0xB" "hi"] no_file in
  let s1 := (getConversation "0xA" "0xB" s).2 in
  ¬ (write_count s1 ≠ write_count s → messages_file s1 ≠ messages_file s).
Proof. vm_compute. intros H. apply H; [discriminate|reflexivity]. Qed.

(** ** Sending, and what a request does to one conversation *)

Lemma sendMessage_result clk req s :
  (∃ code err, (sendMessage clk req s).1 = Status code err
               ∧ stored (sendMessage clk req s).2 = stored s)
  ∨ (∃ from to,
       req_from req = JStr from ∧ req_to req = JStr to
       ∧ truthy (req_message req) = true
       ∧ let id := getConversationId from to in
         let msg := newMessage clk from to (req_message req) (req_messageType req) in
         let c := default (Conversation [toLowerCase from; toLowerCase to] []
                             (now_createdAt clk) None)
                    (conversations (stored s) !! id) in
         sendMessage clk req s =
           (Json (SendBody "Message sent successfully" msg),
            Fs (Some (set_conversation (stored s) id
                        (Conversation (participants c)
                           (push_keep3 (messages c) msg) (createdAt c)
                           (Some (now_lastMessageAt clk)))))
               (S (readMessages s).2.(write_count)))).
Proof.
  unfold sendMessage.
  destruct (truthy (req_from req)) eqn:Hf; simpl; [|left; eexists _, _; split; [reflexivity|done]].
  destruct (truthy (req_to req)) eqn:Ht; simpl; [|left; eexists _, _; split; [reflexivity|done]].
  destruct (truthy (req_message req)) eqn:Hm; simpl; [|left; eexists _, _; split; [reflexivity|done]].
  destruct (req_from req) as [| | | |from| |] eqn:Hfrom;
    try (left; eexists _, _; split; [reflexivity|done]).
  destruct (req_to req) as [| | | |to| |] eqn:Hto;
    try (left; eexists _, _; split; [reflexivity|done]).
  unfold mbind, io_bind. rewrite readMessages_eq. unfold get_conversation.
  destruct (conversations (stored s) !! getConversationId from to) eqn:Hc.
  - right. exists from, to. by rewrite Hc.
  - case_bool_decide.
    + left. eexists _, _. split; [reflexivity|done].
    + right. exists from, to. by rewrite Hc.
Qed.

Lemma messages_of_set d id c id' :
  messages_of (set_conversation d id c) id' =
    if decide (id = id') then messages c else messages_of d id'.
Proof.
  unfold messages_of, set_conversation. simpl. rewrite lookup_insert.
  by case_decide.
Qed.

Lemma newMessage_conversation clk from to content ty :
  let m := newMessage clk from to content ty in
  getConversationId (msg_from m) (msg_to m) = getConversationId from to.
Proof. apply getConversationId_lower. Qed.

#[export] Instance msg_evolves_refl : Reflexive msg_evolves.
Proof. by intros m. Qed.

#[export] Instance msg_evolves_trans : Transitive msg_evolves.
Proof.
  intros m1 m2 m3 (?&?&?&?&?&?&?) (?&?&?&?&?&?&?).
  repeat split; try congruence. auto.
Qed.

Lemma msg_evolves_all_refl (msgs : list message) : Forall2 msg_evolves msgs msgs.
Proof. by apply Forall_Forall2_diag, Forall_true. Qed.

Lemma msg_evolves_all_trans (l1 l2 l3 : list message) :
  Forall2 msg_evolves l1 l2 → Forall2 msg_evolves l2 l3 → Forall2 msg_evolves l1 l3.
Proof. apply Forall2_trans. intros x y z. apply msg_evolves_trans. Qed.

Lemma mark_read_evolves w m : msg_evolves m (mark_read w m).
Proof. unfold mark_read. case_bool_decide; [|done]. by repeat split. Qed.

Lemma mark_read_all_evolve w (msgs : list message) :
  Forall2 msg_evolves msgs (mark_read w <$> msgs).
Proof.
  induction msgs as [|m msgs IH]; [constructor|].
  rewrite fmap_cons. constructor; [apply mark_read_evolves|done].
Qed.

(** One request either appends nothing to a conversation and leaves each
    of its messages as it was or marked read, or appends one message and
    keeps the last three. *)
Lemma handle_messages s r id :
  let msgs := messages_of (stored s) id in
  let msgs' := messages_of (stored (handle s r)) id in
  (appended s r id = [] ∧ Forall2 msg_evolves msgs msgs')
  ∨ (∃ m, appended s r id = [m] ∧ msgs' = push_keep3 msgs m).
Proof.
  intros msgs msgs'. subst msgs msgs'. destruct r as [w g|w1 w2|clk req|w]; simpl.
  - left. split; [done|].
    destruct g; unfold listAvailablePeers, mbind, io_bind; simpl;
      try apply msg_evolves_all_refl.
    rewrite readMessages_eq. simpl. apply msg_evolves_all_refl.
  - left. split; [done|].
    destruct (conversations (stored s) !! getConversationId w1 w2) as [c|] eqn:Hc.
    + rewrite (getConversation_own _ _ _ c) by done. cbv zeta. cbn [snd].
      rewrite stored_Some, messages_of_set. case_decide as Hid; [|apply msg_evolves_all_refl].
      subst id. unfold messages_of. rewrite Hc. simpl.
      apply mark_read_all_evolve.
    + rewrite getConversation_not_own by done. cbv zeta.
      rewrite readMessages_eq. simpl. apply msg_evolves_all_refl.
  - destruct (sendMessage_result clk req s)
      as [(code & err & Hr & Hs)|(from & to & Hf & Ht & Hm & Hsend)].
    + left. rewrite Hr, Hs. split; [done|apply msg_evolves_all_refl].
    + cbv zeta in Hsend. rewrite Hsend. cbn [fst snd res_messageData].
      rewrite stored_Some, newMessage_conversation, messages_of_set.
      case_bool_decide as Hid; case_decide; try done.
      * right. eexists. split; [done|]. subst id. unfold messages_of.
        by destruct (conversations (stored s) !! getConversationId from to).
      * left. split; [done|apply msg_evolves_all_refl].
  - left. split; [done|].
    unfold getUnreadCount, mbind, io_bind. rewrite readMessages_eq. simpl.
    apply msg_evolves_all_refl.
Qed.

(** A send whose [from] and [to] are non-empty strings, whose [message]
    is truthy and whose conversation id names no inherited property
    appends the message it builds. *)
Lemma appended_send s clk from to content ty :
  from ≠ "" → to ≠ "" → truthy content = true →
  get_conversation (stored s) (getConversationId from to) ≠ Inherited →
  appended s (PostSend clk (SendRequest (JStr from) (JStr to) content ty))
    (getConversationId from to)
  = [newMessage clk from to content ty].
Proof.
  intros Hf Ht Hc Hid. unfold appended, sendMessage. simpl.
  destruct (String.eqb_spec from ""); [done|].
  destruct (String.eqb_spec to ""); [done|].
  rewrite Hc. simpl. unfold mbind, io_bind. rewrite readMessages_eq.
  destruct (get_conversation (stored s) (getConversationId from to));
    [|done|]; simpl; rewrite getConversationId_lower;
    by rewrite bool_decide_eq_true_2.
Qed.

(** ** Bounded history *)

Lemma length_slice_last {A} n (l : list A) : length (slice_last n l) = length l `min` n.
Proof. unfold slice_last. rewrite length_drop. lia. Qed.

Lemma push_keep3_slice (msgs : list message) m :
  push_keep3 msgs m = slice_last 3 (msgs ++ [m]).
Proof.
  unfold push_keep3, slice_last.
  destruct (3 <? length (msgs ++ [m]))%nat eqn:H; [done|].
  apply Nat.ltb_ge in H. by replace (length (msgs ++ [m]) - 3) with 0 by lia.
Qed.

Lemma slice_last_snoc {A} n (l : list A) x :
  0 < n → slice_last n (l ++ [x]) = slice_last n (slice_last n l ++ [x]).
Proof.
  intros Hn. pose proof (length_slice_last n l) as Hk.
  remember (slice_last n l) as k eqn:Ek. unfold slice_last.
  rewrite !length_app, Hk. simpl. subst k. unfold slice_last.
  destruct (decide (length l < n)) as [Hl|Hl].
  - replace (length l - n) with 0 by lia. simpl.
    by replace (length l `min` n + 1 - n) with (length l + 1 - n) by lia.
  - replace (length l `min` n + 1 - n) with 1 by lia.
    rewrite !drop_app_le by (rewrite ?length_drop; lia).
    rewrite drop_drop. f_equal. f_equal. lia.
Qed.

Lemma push_keep3_window (hist msgs : list message) m :
  Forall2 msg_evolves (slice_last 3 hist) msgs →
  Forall2 msg_evolves (slice_last 3 (hist ++ [m])) (push_keep3 msgs m).
Proof.
  intros H. rewrite push_keep3_slice, slice_last_snoc by lia.
  remember (slice_last 3 hist) as k eqn:Ek. unfold slice_last.
  rewrite !length_app, <-(Forall2_length _ _ _ H).
  apply Forall2_drop, Forall2_app; [done|apply msg_evolves_all_refl].
Qed.

Lemma run_cons r rs s : run (r :: rs) s = run rs (handle s r).
Proof. done. Qed.

(** The conversation holds the last three of the messages appended so
    far, and every request keeps it that way. *)
Lemma run_window rs : ∀ s id hist,
  Forall2 msg_evolves (slice_last 3 hist) (messages_of (stored s) id) →
  Forall2 msg_evolves (slice_last 3 (hist ++ appended_all s rs id))
    (messages_of (stored (run rs s)) id).
Proof.
  induction rs as [|r rs IH]; intros s id hist H; simpl appended_all.
  - by rewrite app_nil_r.
  - rewrite run_cons, app_assoc. apply IH.
    destruct (handle_messages s r id) as [[-> Hev]|(m & -> & ->)].
    + rewrite app_nil_r. by eapply msg_evolves_all_trans.
    + by apply push_keep3_window.
Qed.

(** C2: in every state reached from the start, a conversation holds at
    most 3 messages, and they are the last 3 of the messages appended to
    it, in the order they were appended (each as it was created, but for
    a read flag that may have been set); so after more than 3 appends it
    holds exactly 3. *)
Theorem C2_last_three_messages (rs : list request) (id : string) :
  let sent := appended_all no_file rs id in
  let msgs := messages_of (stored (run rs no_file)) id in
  length msgs ≤ 3
  ∧ Forall2 msg_evolves (slice_last 3 sent) msgs
  ∧ (3 < length sent → length msgs = 3).
Proof.
  intros sent msgs.
  assert (Forall2 msg_evolves (slice_last 3 sent) msgs) as H.
  { apply (run_window rs no_file id []). constructor. }
  pose proof (Forall2_length _ _ _ H) as Hlen.
  rewrite length_slice_last in Hlen. split; [lia|]. split; [done|lia].
Qed.

Lemma C2_last_three_messages_witness :
  let rs := [text "A" "B" "hi"; text "B" "A" "yo"; text "A" "B" "sup";
             text "A" "B" "again"] in
  length (appended_all no_file rs "a_b") = 4
  ∧ length (messages_of (stored (run rs no_file)) "a_b") = 3
  ∧ msg_message <$> messages_of (stored (run rs no_file)) "a_b"
    = [JStr "yo"; JStr "sup"; JStr "again"].
Proof.
  intros rs.
  destruct (C2_last_three_messages rs "a_b") as (_ & _ & H).
  split; [reflexivity|]. split; [apply H; vm_compute; lia|reflexivity].
Defined.

(** ** Messages only gain their read flag *)

Lemma run_suffix rs : ∀ s id hist,
  (∃ kept, kept `suffix_of` hist
           ∧ Forall2 msg_evolves kept (messages_of (stored s) id)) →
  ∃ kept, kept `suffix_of` (hist ++ appended_all s rs id)
          ∧ Forall2 msg_evolves kept (messages_of (stored (run rs s)) id).
Proof.
  induction rs as [|r rs IH]; intros s id hist (kept & Hsuf & Hev);
    simpl appended_all.
  - exists kept. by rewrite app_nil_r.
  - rewrite run_cons, app_assoc. apply IH.
    destruct (handle_messages s r id) as [[-> Hev']|(m & -> & ->)].
    + exists kept. rewrite app_nil_r. split; [done|].
      by eapply msg_evolves_all_trans.
    + rewrite push_keep3_slice. unfold slice_last.
      exists (drop (length (messages_of (stored s) id ++ [m]) - 3) (kept ++ [m])).
      split.
      * etrans; [apply suffix_drop|by apply suffix_app].
      * apply Forall2_drop, Forall2_app; [done|apply msg_evolves_all_refl].
Qed.

(** C4: take any state and any sequence of requests.  The messages a
    conversation holds afterwards are, in order, messages it held before
    or messages appended since, each with the [id], [from], [to],
    [message], [messageType] and [timestamp] it had then, and with a read
    flag that has not gone from true to false. *)
Theorem C4_messages_only_gain_read (s : fs) (rs : list request) (id : string) :
  ∃ kept,
    kept `suffix_of` (messages_of (stored s) id ++ appended_all s rs id)
    ∧ Forall2 msg_evolves kept (messages_of (stored (run rs s)) id).
Proof.
  apply run_suffix. exists (messages_of (stored s) id).
  split; [done|apply msg_evolves_all_refl].
Qed.

(** ** Stored wallets are lowercase *)

Lemma stored_listAvailablePeers w g s : stored (listAvailablePeers w g s).2 = stored s.
Proof.
  destruct g; unfold listAvailablePeers, mbind, io_bind; simpl; try done.
  by rewrite readMessages_eq.
Qed.

Lemma stored_getUnreadCount w s : stored (getUnreadCount w s).2 = stored s.
Proof. unfold getUnreadCount, mbind, io_bind. by rewrite readMessages_eq. Qed.

Lemma canonical_set d id c :
  canonical d →
  Forall lowercase (participants c) →
  Forall (λ m, lowercase (msg_from m) ∧ lowercase (msg_to m)) (messages c) →
  canonical (set_conversation d id c).
Proof.
  intros Hd Hp Hm id' c'. unfold set_conversation. simpl.
  rewrite lookup_insert. case_decide; [by intros [= <-]|apply Hd].
Qed.

Lemma handle_canonical s r : canonical (stored s) → canonical (stored (handle s r)).
Proof.
  intros Hs. destruct r as [w g|w1 w2|clk req|w]; simpl.
  - by rewrite stored_listAvailablePeers.
  - destruct (conversations (stored s) !! getConversationId w1 w2) as [c|] eqn:Hc.
    + rewrite (getConversation_own _ _ _ c) by done. cbv zeta. cbn [snd].
      rewrite stored_Some. destruct (Hs _ _ Hc) as [Hp Hm].
      apply canonical_set; simpl; [done..|].
      rewrite Forall_fmap. eapply Forall_impl; [exact Hm|].
      intros m Hft. unfold compose, mark_read. by case_bool_decide.
    + rewrite getConversation_not_own by done. cbv zeta.
      by rewrite readMessages_eq.
  - destruct (sendMessage_result clk req s)
      as [(code & err & Hr & Hst)|(from & to & Hf & Ht & Hm & Hsend)];
      [by rewrite Hst|].
    cbv zeta in Hsend. rewrite Hsend. cbn [snd]. rewrite stored_Some.
    set (id := getConversationId from to).
    assert (Forall lowercase
              (participants (default (Conversation [toLowerCase from; toLowerCase to]
                 [] (now_createdAt clk) None) (conversations (stored s) !! id)))
            ∧ Forall (λ m, lowercase (msg_from m) ∧ lowercase (msg_to m))
                (messages (default (Conversation [toLowerCase from; toLowerCase to]
                   [] (now_createdAt clk) None) (conversations (stored s) !! id))))
      as [Hp Hms].
    { destruct (conversations (stored s) !! id) as [c|] eqn:Hc; simpl.
      - by apply (Hs id).
      - split; [|constructor].
        repeat constructor; apply toLowerCase_idem. }
    apply canonical_set; simpl; [done..|].
    rewrite push_keep3_slice. unfold slice_last. apply Forall_drop, Forall_app.
    split; [done|]. repeat constructor; simpl; apply toLowerCase_idem.
  - by rewrite stored_getUnreadCount.
Qed.

Lemma run_canonical rs : ∀ s, canonical (stored s) → canonical (stored (run rs s)).
Proof.
  induction rs as [|r rs IH]; intros s Hs; [done|].
  rewrite run_cons. by apply IH, handle_canonical.
Qed.

(** C10: in every state reached from the start, the participants of every
    conversation and the [from] and [to] of every message are stored in
    lowercase; hence, for a stored message, the strict comparison of [to]
    with the lowercased wallet that the unread total uses holds exactly
    when the two are the same wallet up to case, and the unread total of
    a conversation counts the same messages under either comparison. *)
Theorem C10_stored_wallets_lowercase (rs : list request) :
  let d := stored (run rs no_file) in
  canonical d
  ∧ ∀ id m walletAddress,
      m ∈ messages_of d id →
      let userWallet := toLowerCase walletAddress in
      (msg_to m = userWallet ↔ toLowerCase (msg_to m) = userWallet)
      ∧ unread_for userWallet (messages_of d id)
        = length (filter (λ msg, toLowerCase (msg_to msg) = userWallet
                                 ∧ msg_read msg = false) (messages_of d id)).
Proof.
  intros d.
  assert (canonical d) as Hd by (apply run_canonical; intros id c; done).
  split; [done|]. intros id m w Hm userWallet.
  assert (Forall (λ m, lowercase (msg_to m)) (messages_of d id)) as Hto.
  { unfold messages_of in *.
    destruct (conversations d !! id) as [c|] eqn:Hc; simpl in *; [|constructor].
    eapply Forall_impl; [apply (Hd id c Hc)|]. by intros ? [_ ?]. }
  split.
  - rewrite Forall_forall in Hto. by rewrite (Hto m Hm).
  - unfold unread_for. f_equal. clear Hm.
    induction Hto as [|m' l Hm' _ IH]; [done|].
    rewrite !filter_cons, IH, Hm'. done.
Qed.

Lemma C10_stored_wallets_lowercase_witness :
  let d := stored (run [text "0xAB" "0xCD" "hi"] no_file) in
  let m := newMessage (clock_at "hi") "0xAB" "0xCD" (JStr "hi") JUndefined in
  m ∈ messages_of d "0xab_0xcd"
  ∧ (msg_to m = "0xcd" ↔ toLowerCase (msg_to m) = "0xcd").
Proof.
  intros d m.
  assert (m ∈ messages_of d "0xab_0xcd") as Hm by (vm_compute; left).
  split; [exact Hm|].
  exact (proj1 (proj2 (C10_stored_wallets_lowercase [text "0xAB" "0xCD" "hi"])
                  "0xab_0xcd" m "0xCD" Hm)).
Defined.

(** ** Unread counts *)

Lemma unread_sum_cons uw c cs :
  unread_sum uw (c :: cs) =
    (if decide (uw ∈ participants c) then unread_for uw (messages c) else 0)
    + unread_sum uw cs.
Proof. unfold unread_sum. rewrite filter_cons. by case_decide. Qed.

Lemma unread_sum_perm uw cs cs' : cs ≡ₚ cs' → unread_sum uw cs = unread_sum uw cs'.
Proof. intros H. unfold unread_sum. by rewrite H. Qed.

Lemma getUnreadCount_total w s :
  (getUnreadCount w s).1 = Json (unread_total (toLowerCase w) (stored s)).
Proof.
  unfold getUnreadCount, mbind, io_bind. rewrite readMessages_eq. simpl.
  f_equal. rewrite map_fold_foldr. unfold unread_total.
  induction (map_to_list (conversations (stored s))) as [|[id c] l IH]; [done|].
  rewrite fmap_cons, unread_sum_cons. simpl. rewrite IH.
  case_bool_decide; case_decide; try done; lia.
Qed.

Lemma unread_total_set uw d id c c' :
  conversations d !! id = Some c →
  unread_total uw (set_conversation d id c')
    + (if decide (uw ∈ participants c) then unread_for uw (messages c) else 0)
  = unread_total uw d
    + (if decide (uw ∈ participants c') then unread_for uw (messages c') else 0).
Proof.
  intros Hc. unfold unread_total, set_conversation. simpl.
  rewrite <-(insert_delete_eq (conversations d)).
  rewrite (unread_sum_perm uw _ (c' :: (map_to_list (delete id (conversations d))).*2)).
  2: { rewrite map_to_list_insert by apply lookup_delete_eq. done. }
  rewrite (unread_sum_perm uw (map_to_list (conversations d)).*2
             (c :: (map_to_list (delete id (conversations d))).*2)).
  2: { by rewrite <-(map_to_list_delete _ _ _ Hc). }
  rewrite !unread_sum_cons. lia.
Qed.

Lemma unread_for_mark_read w (msgs : list message) :
  unread_for (toLowerCase w) (mark_read w <$> msgs) = 0.
Proof.
  unfold unread_for. induction msgs as [|m msgs IH]; [done|].
  rewrite fmap_cons, filter_cons_False; [done|].
  unfold mark_read. intros [Hto Hread]. case_bool_decide as Hw; simpl in *.
  - done.
  - apply Hw. by rewrite Hto, toLowerCase_idem.
Qed.

(** C3 (as the code has it): the unread count of a wallet is the sum, over
    the conversations that list the lowercased wallet among their
    participants, of the unread messages addressed to it.  When
    conversation X lists the wallet among its participants, fetching X as
    that wallet lowers the count by exactly the number of unread messages
    addressed to it in X; when there is no conversation X, the count stays
    what it was. *)
Theorem C3_unread_count (w other : string) (s : fs) :
  let userWallet := toLowerCase w in
  let id := getConversationId w other in
  let s' := (getConversation w other s).2 in
  ∃ before after,
    (getUnreadCount w s).1 = Json before
    ∧ (getUnreadCount w s').1 = Json after
    ∧ before = unread_total userWallet (stored s)
    ∧ (userWallet ∈ participants_of (stored s) id →
       before = after + unread_for userWallet (messages_of (stored s) id))
    ∧ (conversations (stored s) !! id = None → after = before).
Proof.
  intros userWallet id s'. eexists _, _.
  split; [apply getUnreadCount_total|]. split; [apply getUnreadCount_total|].
  split; [done|]. subst s' userWallet id.
  unfold participants_of, messages_of.
  destruct (conversations (stored s) !! getConversationId w other) as [X|] eqn:HX.
  - split; [|done]. simpl. intros Hp.
    rewrite (getConversation_own _ _ _ X) by done. cbv zeta. cbn [snd].
    rewrite stored_Some.
    pose proof (unread_total_set (toLowerCase w) (stored s) _ X
      (Conversation (participants X) (mark_read w <$> messages X)
         (createdAt X) (lastMessageAt X)) HX) as H.
    simpl in H. rewrite unread_for_mark_read in H.
    rewrite !decide_True in H by done. lia.
  - split; [by intros ?%elem_of_nil|]. intros _.
    rewrite getConversation_not_own by done. cbv zeta.
    by rewrite readMessages_eq.
Qed.

Lemma C3_unread_count_witness :
  let s := run [text "0xA" "0xB" "hi"; text "0xA" "0xB" "ho"] no_file in
  let s' := (getConversation "0xB" "0xA" s).2 in
  ∃ before after,
    (getUnreadCount "0xB" s).1 = Json before
    ∧ (getUnreadCount "0xB" s').1 = Json after
    ∧ before = after + 2.
Proof.
  intros s s'.
  destruct (C3_unread_count "0xB" "0xA" s) as (before & after & Hb & Ha & _ & H & _).
  exists before, after. split; [exact Hb|]. split; [exact Ha|].
  apply H. vm_compute. right. left.
Defined.

(** C3, the part that fails: C writes to the wallet a_b and then b_c
    writes to the wallet a.  Both pairs have the conversation id a_b_c, so
    the second message joins the conversation whose participants are c and
    a_b.  That conversation holds one unread message addressed to a, the
    unread count of a is 0 before a fetches the conversation and 0 after. *)
Lemma C3_count_ignores_other_participants :
  let s := run [text "c" "a_b" "hi"; text "b_c" "a" "yo"] no_file in
  let s' := (getConversation "a" "b_c" s).2 in
  let X := messages_of (stored s) (getConversationId "a" "b_c") in
  ¬ ∃ before after,
      (getUnreadCount "a" s).1 = Json before
      ∧ (getUnreadCount "a" s').1 = Json after
      ∧ before = after + unread_for "a" X.
Proof.
  intros s s' X (before & after & Hb & Ha & H).
  vm_compute in Hb, Ha, H. injection Hb as <-. injection Ha as <-. lia.
Qed.

(** ** The peer list *)

Lemma add_participant_eq uw (acc : list (string * user)) p :
  add_participant uw acc p =
    let k := toLowerCase (walletAddress p) in
    if decide (k ≠ uw ∧ k ∉ acc.*1) then acc ++ [(k, user_of p)] else acc.
Proof.
  unfold add_participant, Map_set, Map_has. cbv zeta.
  case_decide as H.
  - destruct H as [H1 H2].
    by rewrite (bool_decide_eq_true_2 _ H1), (bool_decide_eq_false_2 _ H2).
  - case_bool_decide as H1; [|done]. case_bool_decide as H2; [done|].
    destruct H. done.
Qed.

Lemma isParticipant_true uw t :
  isParticipant uw t = true ↔
  ∃ ps q, tournament_participants t = Some ps ∧ q ∈ ps
          ∧ toLowerCase (walletAddress q) = uw.
Proof.
  unfold isParticipant. destruct (tournament_participants t) as [ps|].
  - rewrite existsb_exists. split.
    + intros (q & Hq & Hw). exists ps, q. apply list_elem_of_In in Hq.
      by apply bool_decide_eq_true in Hw.
    + intros (? & q & [= <-] & Hq & Hw). exists q. apply list_elem_of_In in Hq.
      by rewrite bool_decide_eq_true.
  - split; [done|]. by intros (? & ? & ? & _).
Qed.

Lemma not_finished_true v : not_finished v = true ↔ v ≠ JStr "finished".
Proof.
  destruct v as [| | | |x| |]; simpl; try done.
  rewrite negb_true_iff. destruct (String.eqb_spec x "finished") as [->|Hx].
  - split; done.
  - split; [|done]. intros _ [= ?]. done.
Qed.

Lemma elem_of_listed uw gamesData p :
  p ∈ listed uw gamesData ↔ co_participant uw gamesData p.
Proof.
  unfold listed, co_participant. rewrite list_elem_of_bind. split.
  - intros (g & Hp & Hg). apply list_elem_of_bind in Hp as (t & Hp & Ht).
    destruct (isParticipant uw t) eqn:Hpart; simpl in Hp;
      [|by apply elem_of_nil in Hp].
    destruct (not_finished (status t)) eqn:Hfin; [|by apply elem_of_nil in Hp].
    apply isParticipant_true in Hpart as (ps & q & Hps & Hq & Hw).
    apply not_finished_true in Hfin. rewrite Hps in Hp. simpl in Hp.
    destruct (tournaments g) as [ts|] eqn:Hts; [|by apply elem_of_nil in Ht].
    exists g, ts, t, ps. eauto 10.
  - intros (g & ts & t & ps & Hg & Hts & Ht & Hps & Hfin & Hq & Hp).
    exists g. split; [|done]. apply list_elem_of_bind. exists t.
    rewrite Hts. split; [|done].
    assert (isParticipant uw t = true) as ->.
    { apply isParticipant_true. destruct Hq as (q & ? & ?). eauto. }
    apply not_finished_true in Hfin. rewrite Hfin, Hps. done.
Qed.

Lemma add_tournament_listed uw acc t :
  add_tournament uw acc t =
    foldl (add_participant uw) acc
      (if isParticipant uw t && not_finished (status t)
       then default [] (tournament_participants t) else []).
Proof. unfold add_tournament. by destruct (_ && _). Qed.

Lemma collect_users_listed uw gamesData :
  collect_users uw gamesData = foldl (add_participant uw) [] (listed uw gamesData).
Proof.
  unfold collect_users, listed. generalize (@nil (string * user)).
  induction gamesData as [|g gs IH]; intros acc; [done|].
  rewrite bind_cons, foldl_app. simpl. rewrite IH. f_equal.
  unfold add_game. destruct (tournaments g) as [ts|]; [|done]. simpl.
  clear IH. revert acc. induction ts as [|t ts IH]; intros acc; [done|].
  rewrite bind_cons, foldl_app. simpl. by rewrite IH, add_tournament_listed.
Qed.

Section collect.
Variable uw : string.

Let collect := foldl (add_participant uw).

Lemma collect_keys l : ∀ acc k,
  k ∈ (collect acc l).*1 ↔
  k ∈ acc.*1 ∨ (k ≠ uw ∧ ∃ p, p ∈ l ∧ toLowerCase (walletAddress p) = k).
Proof.
  induction l as [|p l IH]; intros acc k; simpl.
  - split; [auto|]. intros [?|(_ & p & Hp & _)]; [done|].
    by apply elem_of_nil in Hp.
  - unfold collect in *. simpl. rewrite IH, add_participant_eq. cbv zeta.
    case_decide as Hadd.
    + rewrite fmap_app, elem_of_app. simpl. rewrite list_elem_of_singleton.
      split.
      * intros [[? | ->] | (? & q & ? & ?)]; [by left|right..].
        -- split; [tauto|]. exists p. split; [left|done].
        -- split; [done|]. exists q. split; [by right|done].
      * intros [? | (? & q & [-> | ?]%elem_of_cons & ?)]; [by left; left|..].
        -- left; right. done.
        -- right. eauto.
    + split.
      * intros [?|(? & q & ? & ?)]; [by left|right].
        split; [done|]. exists q. split; [by right|done].
      * intros [? | (Hk & q & [-> | ?]%elem_of_cons & Hq)]; [by left|..].
        -- left. subst k. apply dec_stable. intros Hn. apply Hadd. done.
        -- right. eauto.
Qed.

Lemma collect_NoDup l : ∀ acc, NoDup acc.*1 → NoDup (collect acc l).*1.
Proof.
  induction l as [|p l IH]; intros acc Hacc; [done|].
  unfold collect in *. simpl. apply IH. rewrite add_participant_eq. cbv zeta.
  case_decide as Hadd; [|done].
  rewrite fmap_app. apply NoDup_app. split; [done|]. simpl. split.
  - intros x Hx ->%list_elem_of_singleton. tauto.
  - apply NoDup_singleton.
Qed.

Lemma collect_first l : ∀ acc k u,
  (k, u) ∈ collect acc l →
  ((k, u) ∈ acc)
  ∨ ((k ∉ acc.*1) ∧ k ≠ uw
     ∧ ∃ p, first_with_wallet k p l ∧ u = user_of p).
Proof.
  induction l as [|p l IH]; intros acc k u Hku; [by left|].
  unfold collect in *. simpl in Hku. apply IH in Hku.
  rewrite add_participant_eq in Hku. cbv zeta in Hku.
  assert (∀ q l1 l2, l = l1 ++ q :: l2 → toLowerCase (walletAddress q) = k →
            (∀ q', q' ∈ l1 → toLowerCase (walletAddress q') ≠ k) →
            toLowerCase (walletAddress p) ≠ k →
            first_with_wallet k q (p :: l)) as Hlater.
  { intros q l1 l2 -> Hq Hl1 Hp. exists (p :: l1), l2.
    split; [done|]. split; [done|].
    intros q' [-> | ?]%elem_of_cons; [done|by apply Hl1]. }
  case_decide as Hadd.
  - destruct Hku as [Hin | (Hk & Hne & q & (l1 & l2 & Hl & Hq & Hl1) & ->)].
    + apply elem_of_app in Hin as [? | Hnew%list_elem_of_singleton];
        [by left|].
      injection Hnew as -> ->. right. split; [tauto|]. split; [tauto|].
      exists p. split; [|done]. exists [], l. split; [done|].
      split; [done|]. intros q Hq. by apply elem_of_nil in Hq.
    + rewrite fmap_app, not_elem_of_app in Hk. destruct Hk as [Hk1 Hk2].
      simpl in Hk2. rewrite list_elem_of_singleton in Hk2.
      right. split; [done|]. split; [done|]. exists q. split; [|done].
      apply (Hlater q l1 l2); try done; congruence.
  - destruct Hku as [? | (Hk & Hne & q & (l1 & l2 & Hl & Hq & Hl1) & ->)];
      [by left|].
    right. split; [done|]. split; [done|]. exists q. split; [|done].
    apply (Hlater q l1 l2); try done.
    intros Heq. apply Hadd. by rewrite Heq.
Qed.
End collect.

Lemma getConversationId_lower_l a b :
  getConversationId (toLowerCase a) b = getConversationId a b.
Proof. unfold getConversationId. by rewrite toLowerCase_idem. Qed.

Lemma peer_unread_eq w d u :
  peer_unread (toLowerCase w) d u
  = unread_in d (getConversationId w (user_walletAddress u)) (toLowerCase w).
Proof.
  unfold peer_unread, unread_in, messages_of, get_conversation.
  rewrite getConversationId_lower_l.
  destruct (conversations d !! _); [done|]. by case_bool_decide.
Qed.

Lemma listAvailablePeers_ok w gamesData s :
  (listAvailablePeers w (FetchOk gamesData) s).1 =
    let users :=
      (λ u, with_unreadCount u (peer_unread (toLowerCase w) (stored s) u))
        <$> (collect_users (toLowerCase w) gamesData).*2 in
    Json (UsersBody users (length users)).
Proof.
  unfold listAvailablePeers, mbind, io_bind. by rewrite readMessages_eq.
Qed.

Lemma collect_users_keys uw gamesData :
  (collect_users uw gamesData).*1
  = toLowerCase ∘ user_walletAddress <$> (collect_users uw gamesData).*2.
Proof.
  assert (Forall (λ ku, ku.1 = toLowerCase (user_walletAddress ku.2))
            (collect_users uw gamesData)) as H.
  { apply Forall_forall. intros [k u] Hku. rewrite collect_users_listed in Hku.
    apply collect_first in Hku
      as [Hnil | (_ & _ & p & (l1 & l2 & _ & Hp & _) & ->)];
      [by apply elem_of_nil in Hnil|done]. }
  induction H as [|[k u] l Hk _ IH]; [done|].
  rewrite !fmap_cons. simpl in *. by rewrite Hk, IH.
Qed.

(** C9, the part that fails: the one peer of the sample roster is listed
    without a displayName and without handles. *)
Lemma C9_no_displayName_no_handles :
  ¬ ∃ body,
      (listAvailablePeers "0xaa" (FetchOk sample_roster) no_file).1 = Json body
      ∧ Forall (λ o, ∀ k, k ∈ o.*1 ↔
                  k ∈ ["walletAddress"; "displayName"; "handles"; "unreadCount"])
          (res_users body).
Proof.
  intros (body & Hbody & Hall). vm_compute in Hbody. injection Hbody as <-.
  simpl in Hall. apply Forall_cons in Hall as [Hkeys _].
  assert ("displayName" ∈ ["walletAddress"; "platformUsername"; "gamertags";
                           "unreadCount"]) as Hin
    by (apply Hkeys; right; left).
  repeat (apply elem_of_cons in Hin as [Hin|Hin]; [discriminate|]).
  by apply elem_of_nil in Hin.
Qed.

(** * Further properties of the handlers *)

(** ** The two files *)

(** X15: after the start of the server both files exist; the
    conversations are the ones that were on disk (none if there was no
    file), an existing [chatUsers.json] keeps its content, and a start
    that finds both files writes nothing.  Starting twice is starting
    once. *)
Theorem X15_initialize (d : disk) :
  let d' := initialize d in
  messages_file (messages_json d') = Some (stored (messages_json d))
  ∧ is_Some (chatUsers_file d')
  ∧ (∀ u, chatUsers_file d = Some u → chatUsers_file d' = Some u)
  ∧ (is_Some (messages_file (messages_json d)) → is_Some (chatUsers_file d) →
     d' = d)
  ∧ initialize d' = d'.
Proof.
  destruct d as [[[m|] n] [u|] k]; simpl; unfold initialize; simpl;
    repeat split; eauto; try done; try (by intros ? [=]);
    try (by intros [? [=]]); try (by intros _ [? [=]]).
Qed.

Lemma X15_initialize_witness :
  let d := Disk (run [text "0xA" "0xB" "hi"] no_file) (Some (ChatUsers ∅)) 0 in
  initialize d = d.
Proof.
  intros d.
  destruct (X15_initialize d) as (_ & _ & _ & H & _).
  apply H; vm_compute; eauto.
Defined.

(** ** The outcomes of a send *)

(** X5: a send is answered with the message, with 400 or with 500, and a
    send that is answered with an error leaves what is stored as it was. *)
Theorem X5_failed_send_changes_nothing (clk : clock) (req : send_request) (s : fs) :
  match (sendMessage clk req s).1 with
  | Json body => True
  | Status code err =>
      (code = 400 ∨ code = 500)
      ∧ stored (sendMessage clk req s).2 = stored s
      ∧ (code = 400 → (sendMessage clk req s).2 = s)
  end.
Proof.
  unfold sendMessage.
  destruct (truthy (req_from req)); simpl; [|by auto].
  destruct (truthy (req_to req)); simpl; [|by auto].
  destruct (truthy (req_message req)); simpl; [|by auto].
  destruct (req_from req) as [| | | |from| |]; try (by split; [auto|]).
  destruct (req_to req) as [| | | |to| |]; try (by split; [auto|]).
  unfold mbind, io_bind. rewrite readMessages_eq.
  destruct (get_conversation (stored s) (getConversationId from to)); simpl;
    [done| |done].
  split; [auto|]. done.
Qed.

(** X6: a send is answered with the message exactly when [from] and [to]
    are non-empty strings, [message] is truthy, and the conversation id
    does not fall on an inherited property of the conversations object. *)
Theorem X6_send_succeeds_iff (clk : clock) (req : send_request) (s : fs) :
  (∃ body, (sendMessage clk req s).1 = Json body) ↔
  ∃ from to,
    req_from req = JStr from ∧ from ≠ "" ∧ req_to req = JStr to ∧ to ≠ ""
    ∧ truthy (req_message req) = true
    ∧ get_conversation (stored s) (getConversationId from to) ≠ Inherited.
Proof.
  unfold sendMessage. split.
  - intros [body H].
    destruct (truthy (req_from req)) eqn:Hf; simpl in H; [|done].
    destruct (truthy (req_to req)) eqn:Ht; simpl in H; [|done].
    destruct (truthy (req_message req)) eqn:Hm; simpl in H; [|done].
    destruct (req_from req) as [| | | |from| |]; try done.
    destruct (req_to req) as [| | | |to| |]; try done.
    exists from, to. simpl in Hf, Ht.
    split; [done|]. split; [by intros ->|]. split; [done|].
    split; [by intros ->|]. split; [done|].
    unfold mbind, io_bind in H. rewrite readMessages_eq in H.
    by destruct (get_conversation (stored s) (getConversationId from to)).
  - intros (from & to & -> & Hf & -> & Ht & -> & Hid). simpl.
    destruct (String.eqb_spec from ""); [done|].
    destruct (String.eqb_spec to ""); [done|]. simpl.
    unfold mbind, io_bind. rewrite readMessages_eq.
    destruct (get_conversation (stored s) (getConversationId from to));
      [|done|]; by eexists.
Qed.

Lemma X6_send_succeeds_iff_witness :
  ∃ body, (sendMessage (clock_at "1") (SendRequest (JStr "0xA") (JStr "0xB")
             (JNum 7) JNull) no_file).1 = Json body.
Proof.
  apply X6_send_succeeds_iff. exists "0xA", "0xB".
  repeat split; done.
Defined.

(** ** What a request leaves alone *)

(** X7: the unread count and the peer list read the file and never change
    it: a file that exists is left exactly as it is, without a write, and
    when the tournament backend fails the file is not even looked at. *)
Theorem X7_read_only_endpoints (w : string) (g : fetched) (s : fs) :
  stored (getUnreadCount w s).2 = stored s
  ∧ stored (listAvailablePeers w g s).2 = stored s
  ∧ (is_Some (messages_file s) →
     (getUnreadCount w s).2 = s ∧ (listAvailablePeers w g s).2 = s)
  ∧ (g = FetchThrows ∨ g = FetchNotOk →
     (listAvailablePeers w g s).2 = s
     ∧ ∃ err, (listAvailablePeers w g s).1 = Status 500 err).
Proof.
  split; [apply stored_getUnreadCount|].
  split; [apply stored_listAvailablePeers|]. split.
  - intros [d Hd]. destruct s as [f n]. simpl in Hd. subst f.
    split; [done|]. by destruct g.
  - intros [-> | ->]; simpl; eauto.
Qed.

Lemma X7_read_only_endpoints_witness :
  let s := run [text "0xA" "0xB" "hi"] no_file in
  (getUnreadCount "0xB" s).2 = s
  ∧ (listAvailablePeers "0xB" (FetchOk sample_roster) s).2 = s.
Proof.
  intros s.
  destruct (X7_read_only_endpoints "0xB" (FetchOk sample_roster) s)
    as (_ & _ & H & _).
  apply H. vm_compute. eauto.
Defined.

Lemma stored_handle_ne s r id :
  target r ≠ Some id →
  conversations (stored (handle s r)) !! id = conversations (stored s) !! id.
Proof.
  intros Hid. destruct r as [w g|w1 w2|clk req|w]; simpl in *.
  - by rewrite stored_listAvailablePeers.
  - destruct (conversations (stored s) !! getConversationId w1 w2) as [c|] eqn:Hc.
    + rewrite (getConversation_own _ _ _ c) by done. cbv zeta. cbn [snd].
      rewrite stored_Some. unfold set_conversation. simpl.
      apply lookup_insert_ne. congruence.
    + rewrite getConversation_not_own by done. cbv zeta.
      by rewrite readMessages_eq.
  - destruct (sendMessage_result clk req s)
      as [(code & err & Hr & Hst)|(from & to & Hf & Ht & Hm & Hsend)];
      [by rewrite Hst|].
    cbv zeta in Hsend. rewrite Hsend, Hf, Ht in *. cbn [snd].
    rewrite stored_Some. unfold set_conversation. simpl.
    apply lookup_insert_ne. congruence.
  - by rewrite stored_getUnreadCount.
Qed.

(** X4: a request changes no conversation but the one it names: every
    conversation stored under another id is, after any sequence of
    requests none of which names it, exactly what it was. *)
Theorem X4_other_conversations_untouched (rs : list request) (s : fs) (id : string) :
  Forall (λ r, target r ≠ Some id) rs →
  conversations (stored (run rs s)) !! id = conversations (stored s) !! id.
Proof.
  revert s. induction rs as [|r rs IH]; intros s Hrs; [done|].
  apply Forall_cons in Hrs as [Hr Hrs].
  rewrite run_cons, IH by done. by apply stored_handle_ne.
Qed.

Lemma X4_other_conversations_untouched_witness :
  let s := run [text "0xA" "0xB" "hi"] no_file in
  let rs := [text "0xA" "0xC" "yo"; GetConversation "0xC" "0xA"; GetUnread "0xB"] in
  conversations (stored (run rs s)) !! "0xa_0xb"
  = conversations (stored s) !! "0xa_0xb".
Proof.
  intros s rs. apply X4_other_conversations_untouched.
  repeat constructor; vm_compute; discriminate.
Defined.

(** ** The shape of what is stored *)

Lemma sendMessage_success clk req s body :
  (sendMessage clk req s).1 = Json body →
  ∃ from to,
    req_from req = JStr from ∧ req_to req = JStr to
    ∧ get_conversation (stored s) (getConversationId from to) ≠ Inherited
    ∧ let id := getConversationId from to in
      let msg := newMessage clk from to (req_message req) (req_messageType req) in
      let c := default (Conversation [toLowerCase from; toLowerCase to] []
                          (now_createdAt clk) None)
                 (conversations (stored s) !! id) in
      body = SendBody "Message sent successfully" msg
      ∧ stored (sendMessage clk req s).2 =
          set_conversation (stored s) id
            (Conversation (participants c) (push_keep3 (messages c) msg)
               (createdAt c) (Some (now_lastMessageAt clk))).
Proof.
  unfold sendMessage. intros H.
  destruct (truthy (req_from req)); simpl in *; [|done].
  destruct (truthy (req_to req)); simpl in *; [|done].
  destruct (truthy (req_message req)); simpl in *; [|done].
  destruct (req_from req) as [| | | |from| |]; try done.
  destruct (req_to req) as [| | | |to| |]; try done.
  exists from, to. split; [done|]. split; [done|].
  unfold mbind, io_bind in *. rewrite readMessages_eq in *.
  unfold get_conversation in *.
  destruct (conversations (stored s) !! getConversationId from to) eqn:Hc;
    simpl in *.
  - split; [done|]. by injection H as <-.
  - case_bool_decide; [done|]. split; [done|]. by injection H as <-.
Qed.

Lemma length_push_keep3 (msgs : list message) m :
  1 ≤ length (push_keep3 msgs m) ≤ 3.
Proof.
  rewrite push_keep3_slice, length_slice_last, length_app. simpl. lia.
Qed.

Lemma well_filed_set d id c :
  well_filed d →
  (∃ p1 p2, participants c = [p1; p2] ∧ id = getConversationId p1 p2) →
  id ∉ inherited_properties →
  1 ≤ length (messages c) ≤ 3 →
  Forall (λ m, getConversationId (msg_from m) (msg_to m) = id) (messages c) →
  is_Some (lastMessageAt c) →
  well_filed (set_conversation d id c).
Proof.
  intros Hd ????? id' c'. unfold set_conversation. simpl.
  rewrite lookup_insert. case_decide; [|apply Hd].
  intros [= <-]. by subst id'.
Qed.

Lemma handle_well_filed s r : well_filed (stored s) → well_filed (stored (handle s r)).
Proof.
  intros Hs. destruct r as [w g|w1 w2|clk req|w]; simpl.
  - by rewrite stored_listAvailablePeers.
  - destruct (conversations (stored s) !! getConversationId w1 w2) as [c|] eqn:Hc.
    + rewrite (getConversation_own _ _ _ c) by done. cbv zeta. cbn [snd].
      rewrite stored_Some.
      destruct (Hs _ _ Hc) as (Hp & Hin & Hlen & Hms & Hlast).
      apply well_filed_set; simpl; try done.
      * by rewrite length_fmap.
      * rewrite Forall_fmap. eapply Forall_impl; [exact Hms|].
        intros m Hm. unfold compose, mark_read. by case_bool_decide.
    + rewrite getConversation_not_own by done. cbv zeta.
      by rewrite readMessages_eq.
  - destruct (sendMessage clk req s).1 as [body|code err] eqn:Hr.
    + apply sendMessage_success in Hr
        as (from & to & Hf & Ht & Hid & _ & ->). cbv zeta.
      unfold get_conversation in Hid.
      destruct (conversations (stored s) !! getConversationId from to)
        as [c|] eqn:Hc; simpl.
      * destruct (Hs _ _ Hc) as (Hp & Hin & Hlen & Hms & Hlast).
        apply well_filed_set; simpl; try done.
        -- apply length_push_keep3.
        -- rewrite push_keep3_slice. apply Forall_drop, Forall_app.
           split; [done|]. repeat constructor. apply getConversationId_lower.
      * apply well_filed_set; simpl; try done.
        -- eexists _, _. split; [done|]. by rewrite getConversationId_lower.
        -- by case_bool_decide.
        -- lia.
        -- repeat constructor. apply getConversationId_lower.
    + pose proof (X := sendMessage_result clk req s).
      destruct X as [(? & ? & _ & ->)|(from & to & _ & _ & _ & Hsend)]; [done|].
      cbv zeta in Hsend. by rewrite Hsend in Hr.
  - by rewrite stored_getUnreadCount.
Qed.

Lemma run_well_filed rs : ∀ s, well_filed (stored s) → well_filed (stored (run rs s)).
Proof.
  induction rs as [|r rs IH]; intros s Hs; [done|].
  rewrite run_cons. by apply IH, handle_well_filed.
Qed.

(** X13: in every state reached from the start, each conversation is
    stored under the id of its two participants, holds between one and
    three messages, each of them filed under the id of its own sender and
    recipient, and carries a [lastMessageAt]; no conversation is stored
    under the name of an inherited property. *)
Theorem X13_stored_conversations_well_filed (rs : list request) :
  well_filed (stored (run rs no_file)).
Proof. apply run_well_filed. intros id c. done. Qed.

(** X8: a conversation whose id is the name of an inherited property can
    never be started.  In every state reached from the start there is no
    such conversation, every send to it that passes validation is
    answered 500 and stores nothing, and fetching it gives an empty list
    without participants. *)
Theorem X8_inherited_id_never_stored (rs : list request) (clk : clock)
    (from to : string) (content ty : jsval) :
  getConversationId from to ∈ inherited_properties →
  from ≠ "" → to ≠ "" → truthy content = true →
  let s := run rs no_file in
  let req := SendRequest (JStr from) (JStr to) content ty in
  conversations (stored s) !! getConversationId from to = None
  ∧ (sendMessage clk req s).1 = Status 500 "Internal server error"
  ∧ stored (sendMessage clk req s).2 = stored s
  ∧ (getConversation from to s).1
    = Json (ConversationBody (getConversationId from to) [] None).
Proof.
  intros Hin Hf Ht Hc s req.
  assert (conversations (stored s) !! getConversationId from to = None) as Hnone.
  { destruct (conversations (stored s) !! getConversationId from to) as [c|] eqn:Hl;
      [|done].
    by destruct (run_well_filed rs no_file (λ _ _, ltac:(done)) _ _ Hl)
      as (_ & ? & _). }
  split; [done|].
  assert ((sendMessage clk req s).1 = Status 500 "Internal server error") as Hr.
  { unfold sendMessage. subst req. simpl.
    destruct (String.eqb_spec from ""); [done|].
    destruct (String.eqb_spec to ""); [done|]. rewrite Hc. simpl.
    unfold mbind, io_bind. rewrite readMessages_eq. unfold get_conversation.
    rewrite Hnone. by rewrite bool_decide_eq_true_2. }
  split; [done|]. split.
  - destruct (sendMessage_result clk req s)
      as [(? & ? & _ & ->)|(? & ? & _ & _ & _ & Hsend)]; [done|].
    cbv zeta in Hsend. by rewrite Hsend in Hr.
  - rewrite getConversation_not_own by done. cbv zeta. simpl.
    by rewrite bool_decide_eq_true_2.
Qed.

Lemma X8_inherited_id_never_stored_witness :
  (sendMessage (clock_at "2") (SendRequest (JStr "_") (JStr "PROTO__") (JStr "hi") JNull)
     (run [text "_" "proto__" "hi"; text "0xA" "0xB" "yo"] no_file)).1
  = Status 500 "Internal server error".
Proof.
  refine (proj1 (proj2 (X8_inherited_id_never_stored
    [text "_" "proto__" "hi"; text "0xA" "0xB" "yo"] (clock_at "2")
    "_" "PROTO__" (JStr "hi") JNull _ _ _ _))); try done.
  vm_compute. left.
Defined.

(** ** Conversations stay *)

Lemma handle_keeps_conversation s r id c :
  conversations (stored s) !! id = Some c →
  ∃ c', conversations (stored (handle s r)) !! id = Some c'
        ∧ participants c' = participants c ∧ createdAt c' = createdAt c.
Proof.
  intros Hc. destruct (decide (target r = Some id)) as [Ht|Ht].
  2: { exists c. by rewrite stored_handle_ne. }
  destruct r as [w g|w1 w2|clk req|w]; simpl in *; try done.
  - injection Ht as <-.
    rewrite (getConversation_own _ _ _ c) by done. cbv zeta. cbn [snd].
    rewrite stored_Some. unfold set_conversation. simpl.
    rewrite lookup_insert_eq. by eexists.
  - destruct (sendMessage_result clk req s)
      as [(code & err & Hr & Hst)|(from & to & Hf & Hto & Hm & Hsend)].
    + rewrite Hst. by exists c.
    + cbv zeta in Hsend. rewrite Hsend, Hf, Hto in *. injection Ht as <-.
      cbn [snd]. rewrite stored_Some. unfold set_conversation. simpl.
      rewrite lookup_insert_eq, Hc. by eexists.
Qed.

(** X3: no request deletes a conversation or changes its participants or
    its [createdAt]: a conversation that is stored is still stored after
    any sequence of requests, with the participants and the creation time
    it had. *)
Theorem X3_conversations_stay (rs : list request) (s : fs) (id : string)
    (c : conversation) :
  conversations (stored s) !! id = Some c →
  ∃ c', conversations (stored (run rs s)) !! id = Some c'
        ∧ participants c' = participants c ∧ createdAt c' = createdAt c.
Proof.
  revert s c. induction rs as [|r rs IH]; intros s c Hc; [by exists c|].
  rewrite run_cons.
  destruct (handle_keeps_conversation s r id c Hc) as (c1 & Hc1 & Hp & Ht).
  destruct (IH _ _ Hc1) as (c' & Hc' & Hp' & Ht'). exists c'.
  split; [done|]. split; congruence.
Qed.

Lemma X3_conversations_stay_witness :
  let s := run [text "0xA" "0xB" "hi"] no_file in
  let rs := [text "0xB" "0xA" "1"; text "0xB" "0xA" "2"; text "0xB" "0xA" "3";
             GetConversation "0xA" "0xB"] in
  ∃ c', conversations (stored (run rs s)) !! "0xa_0xb" = Some c'
        ∧ participants c' = ["0xa"; "0xb"].
Proof.
  intros s rs.
  destruct (X3_conversations_stay rs s "0xa_0xb"
    (Conversation ["0xa"; "0xb"]
       [newMessage (clock_at "hi") "0xA" "0xB" (JStr "hi") JUndefined]
       "2026-01-01T00:00:00.000Z" (Some "2026-01-01T00:00:00.000Z")) eq_refl)
    as (c' & Hc' & Hp & _).
  exists c'. split; [exact Hc'|exact Hp].
Defined.

(** ** Conversation ids of wallets without the separator *)

Lemma has_underscore_lower w : has_underscore (toLowerCase w) = has_underscore w.
Proof.
  induction w as [|c w IH]; [done|]. simpl. rewrite IH. f_equal.
  by destruct c as [[] [] [] [] [] [] [] []].
Qed.

Lemma append_cons c x y : String c x +:+ y = String c (x +:+ y).
Proof. reflexivity. Qed.

Lemma append_nil y : "" +:+ y = y.
Proof. reflexivity. Qed.

Lemma joined_inj x x' y y' :
  has_underscore x = false → has_underscore x' = false →
  x +:+ "_" +:+ y = x' +:+ "_" +:+ y' → x = x' ∧ y = y'.
Proof.
  revert x'. induction x as [|c x IH]; intros [|c' x'];
    rewrite ?append_cons, ?append_nil; simpl.
  - intros _ _ [= ->]. done.
  - intros _ [Hc _]%orb_false_elim [= <- _]. done.
  - intros [Hc _]%orb_false_elim _ [= -> _]. done.
  - intros [_ Hx]%orb_false_elim [_ Hx']%orb_false_elim [= -> H].
    destruct (IH _ Hx Hx' H) as [-> ->]. done.
Qed.

(** X12: for wallets that do not contain the separator "_", two pairs
    have the same conversation id only if they are the same pair up to
    case and order. *)
Theorem X12_conversation_id_injective (a b c d : string) :
  has_underscore a = false → has_underscore b = false →
  has_underscore c = false → has_underscore d = false →
  getConversationId a b = getConversationId c d →
  (toLowerCase a = toLowerCase c ∧ toLowerCase b = toLowerCase d)
  ∨ (toLowerCase a = toLowerCase d ∧ toLowerCase b = toLowerCase c).
Proof.
  intros Ha Hb Hc Hd. rewrite <-has_underscore_lower in Ha, Hb, Hc, Hd.
  unfold getConversationId. rewrite !sort_pair.
  destruct (String.leb (toLowerCase a) (toLowerCase b)),
    (String.leb (toLowerCase c) (toLowerCase d));
    unfold at_index; simpl; intros H; apply joined_inj in H as [? ?];
    auto.
Qed.

Lemma X12_conversation_id_injective_witness :
  toLowerCase "0xAB" = toLowerCase "0xab" ∧ toLowerCase "0xcd" = toLowerCase "0xCD"
  ∨ toLowerCase "0xAB" = toLowerCase "0xCD" ∧ toLowerCase "0xcd" = toLowerCase "0xab".
Proof.
  apply (X12_conversation_id_injective "0xAB" "0xcd" "0xab" "0xCD");
    reflexivity.
Defined.

Lemma stored_readMessages s : stored (readMessages s).2 = stored s.
Proof. by rewrite readMessages_eq. Qed.

Lemma handle_plain s r :
  plain_request r → plain_participants (stored s) →
  plain_participants (stored (handle s r)).
Proof.
  intros Hr Hs id c' Hc'.
  destruct (conversations (stored s) !! id) as [c|] eqn:Hc.
  - destruct (handle_keeps_conversation s r id c Hc) as (c1 & Hc1 & Hp & _).
    rewrite Hc1 in Hc'. injection Hc' as <-. rewrite Hp. by apply (Hs id).
  - destruct (decide (target r = Some id)) as [Ht|Ht];
      [|by rewrite stored_handle_ne, Hc in Hc'].
    destruct r as [w g|w1 w2|clk req|w]; cbn [handle target] in *; try done.
    + injection Ht as <-. rewrite getConversation_not_own in Hc' by done.
      cbv zeta in Hc'. cbn [snd] in Hc'. rewrite stored_readMessages in Hc'.
      congruence.
    + unfold plain_request in Hr. cbn [sender_and_recipient] in Hr.
      destruct (sendMessage_result clk req s)
        as [(code & err & _ & Hst)|(from & to & Hf & Hto & _ & Hsend)].
      * rewrite Hst in Hc'. congruence.
      * cbv zeta in Hsend. rewrite Hsend, Hf, Hto in *. injection Ht as <-.
        cbn [snd] in Hc'. rewrite stored_Some in Hc'.
        unfold set_conversation in Hc'. simpl in Hc'.
        rewrite lookup_insert_eq, Hc in Hc'. injection Hc' as <-. simpl.
        apply Forall_cons in Hr as [Hfrom [Hto' _]%Forall_cons].
        repeat constructor; by rewrite has_underscore_lower.
Qed.

Lemma run_plain rs : ∀ s,
  Forall plain_request rs → plain_participants (stored s) →
  plain_participants (stored (run rs s)).
Proof.
  induction rs as [|r rs IH]; intros s Hrs Hs; [done|].
  apply Forall_cons in Hrs as [Hr Hrs]. rewrite run_cons.
  by apply IH, handle_plain.
Qed.

Lemma unread_drop w other s :
  toLowerCase w ∈ participants_of (stored s) (getConversationId w other) →
  unread_total (toLowerCase w) (stored s)
  = unread_total (toLowerCase w) (stored (getConversation w other s).2)
    + unread_for (toLowerCase w)
        (messages_of (stored s) (getConversationId w other)).
Proof.
  unfold participants_of, messages_of.
  destruct (conversations (stored s) !! getConversationId w other) as [X|] eqn:HX;
    simpl; [|by intros ?%elem_of_nil].
  intros Hp. rewrite (getConversation_own _ _ _ X) by done. cbv zeta. cbn [snd].
  rewrite stored_Some.
  pose proof (unread_total_set (toLowerCase w) (stored s) _ X
    (Conversation (participants X) (mark_read w <$> messages X)
       (createdAt X) (lastMessageAt X)) HX) as H.
  simpl in H. rewrite unread_for_mark_read in H.
  rewrite !decide_True in H by done. lia.
Qed.

(** X14: as long as no sender and no recipient ever contained the
    separator "_", fetching a conversation as a wallet without the
    separator lowers that wallet's unread count by exactly the number of
    unread messages addressed to it in the conversation. *)
Theorem X14_fetch_lowers_unread_count (rs : list request) (w other : string) :
  Forall plain_request rs →
  has_underscore w = false → has_underscore other = false →
  let s := run rs no_file in
  let s' := (getConversation w other s).2 in
  ∃ before after,
    (getUnreadCount w s).1 = Json before
    ∧ (getUnreadCount w s').1 = Json after
    ∧ before = after + unread_for (toLowerCase w)
                         (messages_of (stored s) (getConversationId w other)).
Proof.
  intros Hrs Hw Ho s s'. eexists _, _.
  split; [apply getUnreadCount_total|]. split; [apply getUnreadCount_total|].
  subst s'.
  destruct (conversations (stored s) !! getConversationId w other) as [X|] eqn:HX.
  - apply unread_drop. unfold participants_of. rewrite HX. simpl.
    destruct (run_well_filed rs no_file (λ _ _, ltac:(done)) _ _ HX)
      as ((p1 & p2 & Hp & Hid) & _).
    destruct (run_canonical rs no_file (λ _ _, ltac:(done)) _ _ HX) as [Hlow _].
    pose proof (run_plain rs no_file Hrs (λ _ _, ltac:(done)) _ _ HX) as Hplain.
    rewrite Hp in *.
    apply Forall_cons in Hlow as [Hl1 [Hl2 _]%Forall_cons].
    apply Forall_cons in Hplain as [Hu1 [Hu2 _]%Forall_cons].
    unfold lowercase in *.
    assert (toLowerCase w = toLowerCase p1 ∧ toLowerCase other = toLowerCase p2
            ∨ toLowerCase w = toLowerCase p2 ∧ toLowerCase other = toLowerCase p1)
      as [[H _]|[H _]].
    { revert Hid. rewrite <-has_underscore_lower in Hw, Ho, Hu1, Hu2.
      unfold getConversationId. rewrite !sort_pair.
      destruct (String.leb (toLowerCase w) (toLowerCase other)),
        (String.leb (toLowerCase p1) (toLowerCase p2));
        unfold at_index; simpl; intros H; apply joined_inj in H as [? ?];
        auto. }
    + rewrite H, Hl1. left.
    + rewrite H, Hl2. right. left.
  - unfold messages_of. rewrite HX. cbn [from_option].
    rewrite getConversation_not_own by done. cbv zeta. cbn [snd].
    rewrite stored_readMessages.
    assert (unread_for (toLowerCase w) [] = 0) as -> by done. lia.
Qed.

Lemma X14_fetch_lowers_unread_count_witness :
  let s := run [text "0xA" "0xB" "hi"; text "0xA" "0xB" "ho"] no_file in
  ∃ before after,
    (getUnreadCount "0xB" s).1 = Json before
    ∧ (getUnreadCount "0xB" (getConversation "0xB" "0xA" s).2).1 = Json after
    ∧ before = after + 2.
Proof.
  apply (X14_fetch_lowers_unread_count
           [text "0xA" "0xB" "hi"; text "0xA" "0xB" "ho"] "0xB" "0xA");
    [|reflexivity|reflexivity].
  repeat constructor.
Defined.

(** ** Wallets are compared without regard to case *)

Lemma empty_lower a b :
  toLowerCase a = toLowerCase b → String.eqb a "" = String.eqb b "".
Proof. destruct a, b; simpl; try done; by intros [=]. Qed.

(** X10: every endpoint treats two spellings of a wallet that differ only
    in case as the same wallet: the answers and the resulting files are
    equal. *)
Theorem X10_endpoints_ignore_case (w1 w1' w2 w2' : string) :
  toLowerCase w1 = toLowerCase w1' → toLowerCase w2 = toLowerCase w2' →
  (∀ s, getConversation w1 w2 s = getConversation w1' w2' s)
  ∧ (∀ s, getUnreadCount w1 s = getUnreadCount w1' s)
  ∧ (∀ g s, listAvailablePeers w1 g s = listAvailablePeers w1' g s)
  ∧ (∀ clk content ty s,
       sendMessage clk (SendRequest (JStr w1) (JStr w2) content ty) s
       = sendMessage clk (SendRequest (JStr w1') (JStr w2') content ty) s).
Proof.
  intros H1 H2. repeat split.
  - intros s. unfold getConversation, getConversationId, mark_read.
    by rewrite H1, H2.
  - intros s. unfold getUnreadCount. by rewrite H1.
  - intros g s. unfold listAvailablePeers. by rewrite H1.
  - intros clk content ty s.
    unfold sendMessage, newMessage, getConversationId. simpl.
    by rewrite (empty_lower _ _ H1), (empty_lower _ _ H2), H1, H2.
Qed.

Lemma X10_endpoints_ignore_case_witness :
  let s := run [text "0xAb" "0xCd" "hi"] no_file in
  getConversation "0xCD" "0xab" s = getConversation "0xcd" "0xAB" s.
Proof.
  intros s.
  destruct (X10_endpoints_ignore_case "0xCD" "0xcd" "0xab" "0xAB") as [H _];
    [reflexivity..|apply H].
Defined.

(** ** Fetching and sending together *)

Lemma marked_not_unread w (msgs : list message) :
  filter (λ msg, toLowerCase (msg_to msg) = toLowerCase w ∧ msg_read msg = false)
    (mark_read w <$> msgs) = [].
Proof.
  induction msgs as [|m msgs IH]; [done|].
  rewrite fmap_cons, filter_cons_False; [done|].
  unfold mark_read. intros [Hto Hread]. case_bool_decide as Hw; simpl in *; done.
Qed.

Lemma messages_of_getConversation w other s id :
  messages_of (stored (getConversation w other s).2) id =
    if decide (getConversationId w other = id)
    then mark_read w <$> messages_of (stored s) id
    else messages_of (stored s) id.
Proof.
  destruct (conversations (stored s) !! getConversationId w other) as [c|] eqn:Hc.
  - rewrite (getConversation_own _ _ _ c) by done. cbv zeta. cbn [snd].
    rewrite stored_Some, messages_of_set. case_decide; [|done].
    subst id. unfold messages_of. by rewrite Hc.
  - rewrite getConversation_not_own by done. cbv zeta. cbn [snd].
    rewrite stored_readMessages. case_decide; [|done].
    subst id. unfold messages_of. by rewrite Hc.
Qed.

Lemma getConversationId_lower_eq w a b :
  toLowerCase a = toLowerCase b → getConversationId w a = getConversationId w b.
Proof. intros H. unfold getConversationId. by rewrite H. Qed.

(** X9: the messages a fetch returns that are addressed to the fetching
    wallet are all read; the conversation then holds no unread message
    for that wallet, and the peer list requested next shows the unread
    count 0 for the other wallet. *)
Theorem X9_fetch_clears_unread (w other : string) (s : fs) :
  let s' := (getConversation w other s).2 in
  (∃ body, (getConversation w other s).1 = Json body
     ∧ Forall (λ m, toLowerCase (msg_to m) = toLowerCase w → msg_read m = true)
         (res_messages body))
  ∧ unread_in (stored s') (getConversationId w other) (toLowerCase w) = 0
  ∧ ∀ gamesData, ∃ body,
      (listAvailablePeers w (FetchOk gamesData) s').1 = Json body
      ∧ Forall (λ o, ∀ peer,
          get_property o "walletAddress" = JStr peer →
          toLowerCase peer = toLowerCase other →
          get_property o "unreadCount" = JNum 0) (res_users body).
Proof.
  intros s'.
  assert (unread_in (stored s') (getConversationId w other) (toLowerCase w) = 0)
    as Hzero.
  { unfold unread_in. subst s'. rewrite messages_of_getConversation.
    rewrite decide_True by done. by rewrite marked_not_unread. }
  split; [|split; [done|]].
  - destruct (conversations (stored s) !! getConversationId w other) as [c|] eqn:Hc.
    + rewrite (getConversation_own _ _ _ c) by done. cbv zeta.
      eexists. split; [done|]. simpl. apply Forall_fmap, Forall_forall.
      intros m _ Hto. unfold compose, mark_read in *.
      case_bool_decide; [done|]. simpl in *. done.
    + rewrite getConversation_not_own by done. cbv zeta.
      eexists. split; [done|]. constructor.
  - intros gamesData. eexists. split; [apply listAvailablePeers_ok|].
    cbv zeta. simpl. apply Forall_fmap, Forall_forall. intros u _ peer.
    unfold compose, get_property. simpl. intros [= <-] Hpeer.
    rewrite peer_unread_eq, (getConversationId_lower_eq _ _ other) by done.
    by rewrite Hzero.
Qed.

Lemma last_slice_last_snoc {A} (l : list A) x : last (slice_last 3 (l ++ [x])) = Some x.
Proof.
  unfold slice_last. rewrite length_app. simpl.
  rewrite drop_app_le by lia. apply last_snoc.
Qed.

(** X2: a send that succeeds answers with the message it stored, unread
    and with [from] and [to] in lowercase; the message is then the last
    one of the conversation; the send has written the file once when the
    file existed and twice when it did not (first the default data, then
    the conversations); and when the recipient fetches the conversation
    the message comes last and is marked read. *)
Theorem X2_send_then_fetch (clk : clock) (from to : string) (content ty : jsval)
    (s : fs) :
  from ≠ "" → to ≠ "" → truthy content = true →
  get_conversation (stored s) (getConversationId from to) ≠ Inherited →
  let id := getConversationId from to in
  let msg := newMessage clk from to content ty in
  let '(r, s1) := sendMessage clk (SendRequest (JStr from) (JStr to) content ty) s in
  r = Json (SendBody "Message sent successfully" msg)
  ∧ msg_read msg = false
  ∧ msg_from msg = toLowerCase from ∧ msg_to msg = toLowerCase to
  ∧ last (messages_of (stored s1) id) = Some msg
  ∧ write_count s1
    = write_count s + match messages_file s with Some _ => 1 | None => 2 end
  ∧ ∃ body, (getConversation to from s1).1 = Json body
            ∧ last (res_messages body) = Some (mark_read to msg)
            ∧ msg_read (mark_read to msg) = true.
Proof.
  intros Hf Ht Hc Hid id msg.
  pose proof (appended_send s clk from to content ty Hf Ht Hc Hid) as Happ.
  destruct (sendMessage_result clk (SendRequest (JStr from) (JStr to) content ty) s)
    as [(code & err & Hr & _)|(from' & to' & [= <-] & [= <-] & _ & Hsend)].
  { unfold appended in Happ. by rewrite Hr in Happ. }
  cbv zeta in Hsend.
  cbn [req_from req_to req_message req_messageType] in Hsend.
  fold id msg in Hsend.
  set (c0 := default (Conversation [toLowerCase from; toLowerCase to] []
                        (now_createdAt clk) None)
               (conversations (stored s) !! id)) in Hsend.
  set (c1 := Conversation (participants c0) (push_keep3 (messages c0) msg)
               (createdAt c0) (Some (now_lastMessageAt clk))) in Hsend.
  rewrite Hsend.
  assert (last (messages c1) = Some msg) as Hlast.
  { subst c1. cbn [messages]. by rewrite push_keep3_slice, last_slice_last_snoc. }
  split; [done|]. split; [done|]. split; [done|]. split; [done|].
  split; [by rewrite stored_Some, messages_of_set, decide_True|].
  split.
  { cbn [write_count]. rewrite readMessages_eq. cbn [snd write_count].
    destruct (messages_file s); lia. }
  rewrite (getConversation_own _ _ _ c1).
  2: { rewrite stored_Some, (getConversationId_comm to from).
       unfold set_conversation. cbn [conversations]. apply lookup_insert_eq. }
  cbv zeta. eexists. split; [done|]. cbn [res_messages messages].
  rewrite fmap_last, Hlast. split; [done|].
  unfold mark_read. subst msg. cbn [msg_to newMessage].
  by rewrite toLowerCase_idem, bool_decide_eq_true_2.
Qed.

Lemma X2_send_then_fetch_witness :
  let '(r, s1) := sendMessage (clock_at "9")
                    (SendRequest (JStr "0xA") (JStr "0xB") (JStr "hi") JNull)
                    (run [text "0xB" "0xA" "1"; text "0xB" "0xA" "2";
                          text "0xB" "0xA" "3"] no_file) in
  last (messages_of (stored s1) "0xa_0xb")
  = Some (newMessage (clock_at "9") "0xA" "0xB" (JStr "hi") JNull).
Proof.
  pose proof (X2_send_then_fetch (clock_at "9") "0xA" "0xB" (JStr "hi") JNull
    (run [text "0xB" "0xA" "1"; text "0xB" "0xA" "2"; text "0xB" "0xA" "3"] no_file))
    as H.
  cbv zeta in H.
  destruct (sendMessage _ _ _) as [r s1].
  destruct H as (_ & _ & _ & _ & H & _); try done.
Defined.

(** ** How the unread count can grow *)

Lemma unread_for_app uw (l k : list message) :
  unread_for uw (l ++ k) = unread_for uw l + unread_for uw k.
Proof. unfold unread_for. by rewrite filter_app, length_app. Qed.

Lemma unread_for_drop uw n (l : list message) :
  unread_for uw (drop n l) ≤ unread_for uw l.
Proof. rewrite <-(take_drop n l) at 2. rewrite unread_for_app. lia. Qed.

Lemma unread_for_push uw (msgs : list message) m :
  unread_for uw (push_keep3 msgs m) ≤ unread_for uw msgs + 1.
Proof.
  rewrite push_keep3_slice. unfold slice_last.
  etrans; [apply unread_for_drop|]. rewrite unread_for_app.
  unfold unread_for at 2. rewrite filter_cons. case_decide; simpl; lia.
Qed.

Lemma unread_for_marked uw w (msgs : list message) :
  unread_for uw (mark_read w <$> msgs) ≤ unread_for uw msgs.
Proof.
  unfold unread_for. induction msgs as [|m msgs IH]; [done|].
  rewrite fmap_cons, !filter_cons.
  assert (msg_to (mark_read w m) = msg_to m
          ∧ (msg_read (mark_read w m) = false → msg_read m = false)) as [Hto Hr].
  { unfold mark_read. by case_bool_decide. }
  rewrite Hto.
  destruct (decide (msg_to m = uw ∧ msg_read (mark_read w m) = false)) as [[? ?]|?],
    (decide (msg_to m = uw ∧ msg_read m = false)) as [?|Hn];
    simpl; try lia.
  destruct Hn. auto.
Qed.

Lemma unread_total_new uw d id c :
  conversations d !! id = None →
  unread_total uw (set_conversation d id c)
  = (if decide (uw ∈ participants c) then unread_for uw (messages c) else 0)
    + unread_total uw d.
Proof.
  intros Hc. unfold unread_total, set_conversation. simpl.
  rewrite (unread_sum_perm uw _ (c :: (map_to_list (conversations d)).*2)).
  2: { by rewrite map_to_list_insert. }
  apply unread_sum_cons.
Qed.

Lemma handle_unread s r uw :
  unread_total uw (stored (handle s r))
  ≤ unread_total uw (stored s) + (if is_send r then 1 else 0).
Proof.
  destruct r as [w g|w1 w2|clk req|w]; cbn [handle is_send].
  - rewrite stored_listAvailablePeers. lia.
  - destruct (conversations (stored s) !! getConversationId w1 w2) as [c|] eqn:Hc.
    + rewrite (getConversation_own _ _ _ c) by done. cbv zeta. cbn [snd].
      rewrite stored_Some.
      pose proof (unread_total_set uw (stored s) _ c
        (Conversation (participants c) (mark_read w1 <$> messages c)
           (createdAt c) (lastMessageAt c)) Hc) as H.
      cbn [participants messages] in H.
      pose proof (unread_for_marked uw w1 (messages c)).
      case_decide; lia.
    + rewrite getConversation_not_own by done. cbv zeta. cbn [snd].
      rewrite stored_readMessages. lia.
  - destruct (sendMessage_result clk req s)
      as [(code & err & _ & ->)|(from & to & _ & _ & _ & Hsend)]; [lia|].
    cbv zeta in Hsend. rewrite Hsend. cbn [snd]. rewrite stored_Some.
    destruct (conversations (stored s) !! getConversationId from to)
      as [c|] eqn:Hc; cbn [from_option id].
    + pose proof (unread_total_set uw (stored s) _ c
        (Conversation (participants c)
           (push_keep3 (messages c)
              (newMessage clk from to (req_message req) (req_messageType req)))
           (createdAt c) (Some (now_lastMessageAt clk))) Hc) as H.
      cbn [participants messages] in H.
      pose proof (unread_for_push uw (messages c)
        (newMessage clk from to (req_message req) (req_messageType req))).
      case_decide; lia.
    + rewrite unread_total_new by done. cbn [participants messages].
      pose proof (unread_for_push uw []
        (newMessage clk from to (req_message req) (req_messageType req))) as H.
      assert (unread_for uw [] = 0) as Hnil by done. rewrite Hnil in H.
      case_decide; lia.
  - rewrite stored_getUnreadCount. lia.
Qed.

(** X16: only a send can raise a wallet's unread count, and each send
    raises it by at most one: after any sequence of requests the count is
    at most the count before plus the number of sends in the sequence. *)
Theorem X16_unread_count_growth (rs : list request) (s : fs) (w : string) :
  ∃ before after,
    (getUnreadCount w s).1 = Json before
    ∧ (getUnreadCount w (run rs s)).1 = Json after
    ∧ after ≤ before + length (filter (λ r, is_send r = true) rs).
Proof.
  eexists _, _. split; [apply getUnreadCount_total|].
  split; [apply getUnreadCount_total|].
  revert s. induction rs as [|r rs IH]; intros s; [simpl; lia|].
  rewrite run_cons. etrans; [apply IH|].
  pose proof (handle_unread s r (toLowerCase w)) as H.
  rewrite filter_cons. destruct (is_send r); case_decide; simpl; try done; lia.
Qed.

(** ** The order of the peer list *)

Lemma collect_first_occurrences uw l : ∀ acc seen,
  (∀ k, k ∈ seen ↔ k = uw ∨ k ∈ acc.*1) →
  foldl (add_participant uw) acc l
  = acc ++ ((λ p, (toLowerCase (walletAddress p), user_of p))
              <$> first_occurrences seen l).
Proof.
  induction l as [|p l IH]; intros acc seen Hseen; simpl.
  - by rewrite app_nil_r.
  - rewrite add_participant_eq. cbv zeta. case_decide as Hadd; case_decide as Hin.
    + exfalso. apply Hseen in Hin. tauto.
    + rewrite (IH _ (toLowerCase (walletAddress p) :: seen)).
      * by rewrite fmap_cons, <-app_assoc.
      * intros k. rewrite fmap_app, elem_of_cons, elem_of_app, Hseen. simpl.
        rewrite list_elem_of_singleton. tauto.
    + by apply IH.
    + exfalso. apply Hadd. split.
      * intros Heq. apply Hin, Hseen. by left.
      * intros Hk. apply Hin, Hseen. by right.
Qed.

(** X11: the peer list shows the peers in the order in which the roster
    first names them: its wallets are those of the first occurrences, in
    the roster of the wallet's open tournaments, of every lowercased
    wallet but the requesting one. *)
Theorem X11_peer_order (w : string) (gamesData : list game) (s : fs) :
  ∃ body,
    (listAvailablePeers w (FetchOk gamesData) s).1 = Json body
    ∧ (λ o, get_property o "walletAddress") <$> res_users body
      = (λ p, JStr (walletAddress p))
          <$> first_occurrences [toLowerCase w] (listed (toLowerCase w) gamesData).
Proof.
  eexists. split; [apply listAvailablePeers_ok|]. cbv zeta. cbn [res_users].
  rewrite collect_users_listed,
    (collect_first_occurrences _ _ [] [toLowerCase w]).
  2: { intros k. rewrite list_elem_of_singleton. simpl.
       split; [by left|]. intros [?|?%elem_of_nil]; done. }
  rewrite app_nil_l, <-!list_fmap_compose.
  by apply list_fmap_ext.
Qed.

(** ** A fetch and the other wallets *)

Lemma unread_for_marked_other uw w (msgs : list message) :
  toLowerCase uw ≠ toLowerCase w →
  unread_for uw (mark_read w <$> msgs) = unread_for uw msgs.
Proof.
  intros Hne. unfold unread_for. f_equal.
  induction msgs as [|m msgs IH]; [done|].
  rewrite fmap_cons. destruct (decide (msg_to m = uw)) as [Hto|Hto].
  - assert (mark_read w m = m) as ->; [|by rewrite !filter_cons, IH].
    unfold mark_read. rewrite bool_decide_eq_false_2; [done|]. congruence.
  - rewrite !filter_cons_False; [done|by intros [? _]|].
    intros [Hto' _]. apply Hto. rewrite <-Hto'. unfold mark_read.
    by case_bool_decide.
Qed.

(** X17: a fetch answers exactly the messages it leaves in the file, and
    it changes the unread count of no wallet but the fetching one. *)
Theorem X17_fetch_leaves_other_counts (w other w' : string) (s : fs) :
  toLowerCase w' ≠ toLowerCase w →
  let s' := (getConversation w other s).2 in
  (∃ body, (getConversation w other s).1 = Json body
     ∧ res_messages body = messages_of (stored s') (getConversationId w other))
  ∧ ∃ n, (getUnreadCount w' s).1 = Json n ∧ (getUnreadCount w' s').1 = Json n.
Proof.
  intros Hne s'. subst s'. split.
  - rewrite messages_of_getConversation, decide_True by done.
    destruct (conversations (stored s) !! getConversationId w other) as [c|] eqn:Hc.
    + rewrite (getConversation_own _ _ _ c) by done. cbv zeta.
      eexists. split; [done|]. unfold messages_of. by rewrite Hc.
    + rewrite getConversation_not_own by done. cbv zeta.
      eexists. split; [done|]. unfold messages_of. by rewrite Hc.
  - eexists. split; [apply getUnreadCount_total|].
    rewrite getUnreadCount_total. f_equal.
    destruct (conversations (stored s) !! getConversationId w other) as [c|] eqn:Hc.
    + rewrite (getConversation_own _ _ _ c) by done. cbv zeta. cbn [snd].
      rewrite stored_Some.
      pose proof (unread_total_set (toLowerCase w') (stored s) _ c
        (Conversation (participants c) (mark_read w <$> messages c)
           (createdAt c) (lastMessageAt c)) Hc) as H.
      cbn [participants messages] in H.
      rewrite unread_for_marked_other in H by (by rewrite toLowerCase_idem).
      lia.
    + rewrite getConversation_not_own by done. cbv zeta. cbn [snd].
      by rewrite stored_readMessages.
Qed.

Lemma X17_fetch_leaves_other_counts_witness :
  let s := run [text "0xA" "0xB" "hi"; text "0xB" "0xA" "yo"] no_file in
  ∃ n, (getUnreadCount "0xA" s).1 = Json n
       ∧ (getUnreadCount "0xA" (getConversation "0xB" "0xA" s).2).1 = Json n.
Proof.
  intros s.
  apply (X17_fetch_leaves_other_counts "0xB" "0xA" "0xA" s). discriminate.
Defined.

(** ** When a conversation exists *)

Lemma or_no_message (P : Prop) : P ↔ P ∨ (@nil message) ≠ [].
Proof. split; [by left|by intros [?|?]]. Qed.

Lemma handle_exists s r id :
  is_Some (conversations (stored (handle s r)) !! id) ↔
  is_Some (conversations (stored s) !! id) ∨ appended s r id ≠ [].
Proof.
  destruct r as [w g|w1 w2|clk req|w]; cbn [handle appended].
  - rewrite stored_listAvailablePeers. apply or_no_message.
  - rewrite <-or_no_message.
    destruct (conversations (stored s) !! getConversationId w1 w2) as [c|] eqn:Hc.
    + rewrite (getConversation_own _ _ _ c) by done. cbv zeta. cbn [snd].
      rewrite stored_Some. unfold set_conversation. cbn [conversations].
      rewrite lookup_insert. case_decide; [|done]. subst id. rewrite Hc.
      split; eauto.
    + rewrite getConversation_not_own by done. cbv zeta. cbn [snd].
      by rewrite stored_readMessages.
  - destruct (sendMessage clk req s).1 as [body|code err] eqn:Hr.
    + apply sendMessage_success in Hr as (from & to & _ & _ & _ & -> & ->).
      cbn [res_messageData]. rewrite newMessage_conversation.
      unfold set_conversation. cbn [conversations]. rewrite lookup_insert.
      case_bool_decide; case_decide; try done.
      * split; [by right|eauto].
      * apply or_no_message.
    + rewrite <-or_no_message.
      destruct (sendMessage_result clk req s)
        as [(? & ? & _ & ->)|(from & to & _ & _ & _ & Hsend)]; [done|].
      cbv zeta in Hsend. by rewrite Hsend in Hr.
  - rewrite stored_getUnreadCount. apply or_no_message.
Qed.

(** X19: a conversation exists after a sequence of requests exactly when
    it existed before or a send of the sequence appended a message to it:
    fetching, counting and listing never create one. *)
Theorem X19_conversation_exists_iff (rs : list request) (s : fs) (id : string) :
  is_Some (conversations (stored (run rs s)) !! id) ↔
  is_Some (conversations (stored s) !! id) ∨ appended_all s rs id ≠ [].
Proof.
  revert s. induction rs as [|r rs IH]; intros s; [apply or_no_message|].
  rewrite run_cons, IH, handle_exists. cbn [appended_all].
  destruct (appended s r id) as [|m l];
    destruct (appended_all (handle s r) rs id) as [|m' l']; simpl;
    intuition discriminate.
Qed.

(** ** Who talks in a conversation *)

Lemma same_id_same_pair a b c d :
  has_underscore a = false → has_underscore b = false →
  has_underscore c = false → has_underscore d = false →
  getConversationId a b = getConversationId c d →
  (toLowerCase a = toLowerCase c ∧ toLowerCase b = toLowerCase d)
  ∨ (toLowerCase a = toLowerCase d ∧ toLowerCase b = toLowerCase c).
Proof.
  intros Ha Hb Hc Hd. rewrite <-has_underscore_lower in Ha, Hb, Hc, Hd.
  unfold getConversationId. rewrite !sort_pair.
  destruct (String.leb (toLowerCase a) (toLowerCase b)),
    (String.leb (toLowerCase c) (toLowerCase d));
    unfold at_index; simpl; intros H; apply joined_inj in H as [? ?];
    auto.
Qed.

Lemma pair_between (a b : string) :
  (a ∈ [a; b] ∧ b ∈ [a; b] ∧ ∀ p, p ∈ [a; b] → p = a ∨ p = b)
  ∧ (b ∈ [a; b] ∧ a ∈ [a; b] ∧ ∀ p, p ∈ [a; b] → p = b ∨ p = a).
Proof.
  repeat split; try (by left); try (by right; left);
    intros p [-> | [-> | ?%elem_of_nil]%elem_of_cons]%elem_of_cons;
    try done; auto.
Qed.

Lemma between_participants_set d id c :
  between_participants d →
  Forall (λ m, msg_from m ∈ participants c ∧ msg_to m ∈ participants c
               ∧ ∀ p, p ∈ participants c → p = msg_from m ∨ p = msg_to m)
    (messages c) →
  between_participants (set_conversation d id c).
Proof.
  intros Hd Hc id' c'. unfold set_conversation. cbn [conversations].
  rewrite lookup_insert. case_decide; [by intros [= <-]|apply Hd].
Qed.

Lemma handle_between s r :
  plain_request r →
  well_filed (stored s) → canonical (stored s) → plain_participants (stored s) →
  between_participants (stored s) →
  between_participants (stored (handle s r)).
Proof.
  intros Hr Hwf Hcan Hplain Hs.
  destruct r as [w g|w1 w2|clk req|w]; cbn [handle].
  - by rewrite stored_listAvailablePeers.
  - destruct (conversations (stored s) !! getConversationId w1 w2) as [c|] eqn:Hc.
    + rewrite (getConversation_own _ _ _ c) by done. cbv zeta. cbn [snd].
      rewrite stored_Some. apply between_participants_set; [done|].
      cbn [participants messages]. rewrite Forall_fmap.
      eapply Forall_impl; [exact (Hs _ _ Hc)|].
      intros m Hm. unfold compose, mark_read. by case_bool_decide.
    + rewrite getConversation_not_own by done. cbv zeta. cbn [snd].
      by rewrite stored_readMessages.
  - destruct (sendMessage clk req s).1 as [body|code err] eqn:Hres.
    2: { destruct (sendMessage_result clk req s)
           as [(? & ? & _ & ->)|(? & ? & _ & _ & _ & Hsend)]; [done|].
         cbv zeta in Hsend. by rewrite Hsend in Hres. }
    apply sendMessage_success in Hres as (from & to & Hf & Ht & _ & _ & ->).
    unfold plain_request in Hr. cbn [sender_and_recipient] in Hr.
    rewrite Hf, Ht in Hr.
    apply Forall_cons in Hr as [Hfrom [Hto _]%Forall_cons].
    apply between_participants_set; [done|]. cbn [participants messages].
    rewrite push_keep3_slice. apply Forall_drop, Forall_app.
    destruct (conversations (stored s) !! getConversationId from to)
      as [c|] eqn:Hc; cbn [from_option id].
    + split; [exact (Hs _ _ Hc)|]. constructor; [|constructor].
      cbn [msg_from msg_to newMessage].
      destruct (Hwf _ _ Hc) as ((p1 & p2 & Hp & Hid) & _).
      destruct (Hcan _ _ Hc) as [Hlow _]. pose proof (Hplain _ _ Hc) as Hpl.
      rewrite Hp in *.
      apply Forall_cons in Hlow as [Hl1 [Hl2 _]%Forall_cons].
      apply Forall_cons in Hpl as [Hu1 [Hu2 _]%Forall_cons].
      unfold lowercase in *.
      destruct (same_id_same_pair from to p1 p2 Hfrom Hto Hu1 Hu2 Hid)
        as [[-> ->]|[-> ->]]; rewrite Hl1, Hl2; apply pair_between.
    + split; [constructor|]. constructor; [|constructor].
      cbn [msg_from msg_to newMessage participants]. apply pair_between.
  - by rewrite stored_getUnreadCount.
Qed.

(** X18: as long as no sender and no recipient ever contained the
    separator "_", every message of a stored conversation goes from one
    participant of that conversation to the other. *)
Theorem X18_messages_between_participants (rs : list request) :
  Forall plain_request rs →
  between_participants (stored (run rs no_file)).
Proof.
  assert (∀ s, Forall plain_request rs →
            well_filed (stored s) → canonical (stored s) →
            plain_participants (stored s) → between_participants (stored s) →
            between_participants (stored (run rs s))) as H.
  { induction rs as [|r rs IH]; intros s Hrs Hwf Hcan Hpl Hs; [done|].
    apply Forall_cons in Hrs as [Hr Hrs]. rewrite run_cons.
    apply IH; [done|by apply handle_well_filed|by apply handle_canonical
              |by apply handle_plain|by apply handle_between]. }
  intros Hrs. apply H; [done|..]; intros id c; done.
Qed.

Lemma X18_messages_between_participants_witness :
  between_participants
    (stored (run [text "0xA" "0xB" "hi"; text "0xB" "0xA" "yo";
                  GetConversation "0xA" "0xB"] no_file)).
Proof.
  apply X18_messages_between_participants. repeat constructor.
Defined.

(** * The peer list as the client receives it *)

Lemma is_undefined_true v : is_undefined v = true → v = JUndefined.
Proof. by destruct v. Qed.

Lemma serialized_with_unreadCount u n :
  let o := serialized (with_unreadCount u n) in
  o.*1 = sent_fields u
  ∧ get_property o "walletAddress" = JStr (user_walletAddress u)
  ∧ get_property o "platformUsername" = user_platformUsername u
  ∧ get_property o "gamertags" = user_gamertags u
  ∧ get_property o "unreadCount" = JNum (Z.of_nat n).
Proof.
  unfold serialized, with_unreadCount, sent_fields, get_property.
  rewrite !filter_cons, filter_nil. cbn [snd].
  destruct (is_undefined (user_platformUsername u)) eqn:Hp,
    (is_undefined (user_gamertags u)) eqn:Hg;
    try apply is_undefined_true in Hp; try apply is_undefined_true in Hg;
    simpl; rewrite ?Hp, ?Hg; done.
Qed.

Lemma user_of_inj p q : user_of p = user_of q → p = q.
Proof. destruct p, q. by intros [= -> -> ->]. Qed.

Lemma collect_users_first_occurrences uw gamesData :
  collect_users uw gamesData
  = (λ p, (toLowerCase (walletAddress p), user_of p))
      <$> first_occurrences [uw] (listed uw gamesData).
Proof.
  rewrite collect_users_listed, (collect_first_occurrences _ _ [] [uw]); [done|].
  intros k. rewrite list_elem_of_singleton. simpl.
  split; [by left|]. intros [?|?%elem_of_nil]; done.
Qed.

(** C8: the elements of [users] that the client receives carry, one each
    and in this order, the walletAddress, platformUsername and gamertags
    of a list of roster entries with these properties: no two of them
    have the same lowercased wallet; a lowercased wallet is among them
    exactly when it is not the requesting wallet and some roster entry
    with that wallet takes part, together with the requesting wallet, in
    a tournament that is not finished; and each of them is the first
    roster entry with its lowercased wallet, in the order of the roster. *)
Theorem C8_available_peers (w : string) (gamesData : list game) (s : fs) :
  let userWallet := toLowerCase w in
  ∃ body (peers : list participant),
    (listAvailablePeers w (FetchOk gamesData) s).1 = Json body
    ∧ res_count body = length (res_users body)
    ∧ Forall2 (λ p o,
        get_property (serialized o) "walletAddress" = JStr (walletAddress p)
        ∧ get_property (serialized o) "platformUsername" = platformUsername p
        ∧ get_property (serialized o) "gamertags" = gamertags p)
        peers (res_users body)
    ∧ NoDup (toLowerCase ∘ walletAddress <$> peers)
    ∧ (∀ x, x ∈ (toLowerCase ∘ walletAddress <$> peers) ↔
            x ≠ userWallet
            ∧ ∃ p, co_participant userWallet gamesData p
                   ∧ toLowerCase (walletAddress p) = x)
    ∧ (∀ p, p ∈ peers →
            first_with_wallet (toLowerCase (walletAddress p)) p
              (listed userWallet gamesData)).
Proof.
  intros userWallet. subst userWallet.
  set (peers := first_occurrences [(toLowerCase w)] (listed (toLowerCase w) gamesData)).
  assert ((collect_users (toLowerCase w) gamesData).*1
          = toLowerCase ∘ walletAddress <$> peers) as Hkeys.
  { rewrite collect_users_first_occurrences, <-list_fmap_compose.
    by apply list_fmap_ext. }
  assert ((collect_users (toLowerCase w) gamesData).*2 = user_of <$> peers) as Hvals.
  { rewrite collect_users_first_occurrences, <-list_fmap_compose.
    by apply list_fmap_ext. }
  eexists _, peers. split; [apply listAvailablePeers_ok|]. cbv zeta.
  cbn [res_count res_users]. split; [done|]. split.
  { rewrite Hvals, <-list_fmap_compose. apply Forall2_fmap_r, Forall_Forall2_diag.
    apply Forall_forall. intros p _. unfold compose.
    destruct (serialized_with_unreadCount (user_of p)
                (peer_unread (toLowerCase w) (stored s) (user_of p)))
      as (_ & H1 & H2 & H3 & _).
    done. }
  rewrite <-Hkeys, collect_users_listed.
  split; [apply collect_NoDup, NoDup_nil_2|]. split.
  - intros x. rewrite collect_keys. split.
    + intros [Hnil | (Hx & p & Hp & Hw)]; [by apply elem_of_nil in Hnil|].
      split; [done|]. exists p. by rewrite <-elem_of_listed.
    + intros (Hx & p & Hp & Hw). right. split; [done|].
      exists p. by rewrite elem_of_listed.
  - intros p Hp.
    assert ((toLowerCase (walletAddress p), user_of p)
              ∈ collect_users (toLowerCase w) gamesData) as Hin.
    { rewrite collect_users_first_occurrences. apply list_elem_of_fmap.
      by exists p. }
    rewrite collect_users_listed in Hin.
    apply collect_first in Hin
      as [Hnil | (_ & _ & q & Hfirst & Hq)]; [by apply elem_of_nil in Hnil|].
    by apply user_of_inj in Hq as ->.
Qed.

Lemma C8_available_peers_witness :
  ∃ body peers,
    (listAvailablePeers "0xaa" (FetchOk sample_roster) no_file).1 = Json body
    ∧ Forall2 (λ p o,
        get_property (serialized o) "walletAddress" = JStr (walletAddress p)
        ∧ get_property (serialized o) "platformUsername" = platformUsername p
        ∧ get_property (serialized o) "gamertags" = gamertags p)
        peers (res_users body)
    ∧ "0xbb" ∈ (toLowerCase ∘ walletAddress <$> peers)
    ∧ ∀ p, p ∈ peers →
        first_with_wallet (toLowerCase (walletAddress p)) p
          (listed "0xaa" sample_roster).
Proof.
  destruct (C8_available_peers "0xaa" sample_roster no_file)
    as (body & peers & Hr & _ & Hall & _ & Hin & Hfirst).
  exists body, peers. split; [exact Hr|]. split; [exact Hall|].
  split; [|exact Hfirst]. apply Hin. split; [discriminate|].
  exists (Participant "0xBB" (JStr "bob") JNull). split; [|reflexivity].
  eexists _, _, _, _. split; [left|]. split; [reflexivity|].
  split; [left|]. split; [reflexivity|]. split; [discriminate|].
  split; [|right; left].
  eexists. split; [left|reflexivity].
Defined.

(** C9 (as the code has it): the elements of [users] that the client
    receives are, in roster order, those of the first roster entries of
    the peers.  Each has the properties walletAddress and unreadCount,
    the properties platformUsername and gamertags when the roster entry
    has them, with the values of the roster entry, and no other property;
    [count] is the number of elements; and unreadCount is the number of
    unread messages addressed to the requesting wallet in its conversation
    with that peer. *)
Theorem C9_peer_entries (w : string) (gamesData : list game) (s : fs) :
  ∃ body,
    (listAvailablePeers w (FetchOk gamesData) s).1 = Json body
    ∧ res_count body = length (res_users body)
    ∧ Forall2 (λ p o,
        (serialized o).*1 = sent_fields (user_of p)
        ∧ get_property (serialized o) "walletAddress" = JStr (walletAddress p)
        ∧ get_property (serialized o) "platformUsername" = platformUsername p
        ∧ get_property (serialized o) "gamertags" = gamertags p
        ∧ get_property (serialized o) "unreadCount"
          = JNum (Z.of_nat (unread_in (stored s)
                              (getConversationId w (walletAddress p))
                              (toLowerCase w))))
        (first_occurrences [toLowerCase w] (listed (toLowerCase w) gamesData))
        (res_users body).
Proof.
  eexists. split; [apply listAvailablePeers_ok|]. cbv zeta.
  cbn [res_count res_users]. split; [done|].
  rewrite collect_users_first_occurrences, <-!list_fmap_compose.
  apply Forall2_fmap_r, Forall_Forall2_diag, Forall_forall.
  intros p _. unfold compose. cbn [snd].
  destruct (serialized_with_unreadCount (user_of p)
              (peer_unread (toLowerCase w) (stored s) (user_of p)))
    as (H0 & H1 & H2 & H3 & H4).
  cbn [user_of user_walletAddress user_platformUsername user_gamertags] in *.
  repeat split; try assumption.
  rewrite H4. by rewrite peer_unread_eq.
Qed.

(** A roster entry without platformUsername is received without that
    property, and a gamertags that is [null] is received as [null]. *)
Lemma serialized_drops_missing :
  (serialized (with_unreadCount (User "0xBB" JUndefined JNull) 2)).*1
  = ["walletAddress"; "gamertags"; "unreadCount"].
Proof. reflexivity. Qed.
